(** * Routing and middleware core of adonis-framework

    A shallow embedding of the route registry, the route resolver, the
    resource generator (src/Route/index.ts, src/Route/helpers.ts) and the
    middleware store and composer (src/Middleware/index.ts), with the
    properties of the specification stated and proved over it.

    Conventions.  A JavaScript array is a [list]; a value that may be
    [undefined] is an [option]; a call that may throw returns a
    [Js.result].  A plain object used as a map is the [gmap] of its own
    properties; what it inherits from [Object.prototype] is written out
    where the code reads or writes it under a key that the caller chooses.
    Shared mutable records are kept in an explicit store (the registry, a
    list of records) that every operation takes and returns, and a reference
    to a record is its index in the store.

    The TypeScript sources are modelled as they are written.  The fields
    that a class declares and never assigns ([helpers], [util], [domains],
    [registeredDomains]) hold the objects of those names.  A method called
    on an object that does not have it, and a property read on [undefined],
    throw the engine's [TypeError]; a plain [function] passed as a callback
    runs without a [this]. *)

From Stdlib Require Import Ascii String List Bool Arith Lia.
From stdpp Require Import base option list gmap strings pretty.

Import ListNotations.

(** ** JavaScript primitives used by the sources *)

Module Js.

(** The exceptions of src/Exceptions/index.ts that the core raises, and the
    engine's own [TypeError]. *)
Inductive Exception : Type :=
| TypeError (message : string)
| RuntimeException (message : string) (status : nat) (code : string)
| InvalidArgumentException (message : string) (status : nat) (code : string).

Inductive result (A : Type) : Type :=
| Ok (a : A)
| Throw (e : Exception).
Global Arguments Ok {A} a.
Global Arguments Throw {A} e.

Definition bind {A B : Type} (r : result A) (k : A -> result B) : result B :=
  match r with
  | Ok a => k a
  | Throw e => Throw e
  end.

Definition returns {A : Type} (r : result A) : Prop :=
  match r with Ok _ => True | Throw _ => False end.

(** [!s] on a string: only the empty string is falsy. *)
Definition truthy (s : string) : bool :=
  match s with EmptyString => false | String _ _ => true end.

(** [!v] on a value that may be [undefined]. *)
Definition truthy_opt (v : option string) : bool :=
  match v with Some s => truthy s | None => false end.

(** [s.split(sep)] for a one-character separator. *)
Fixpoint split (sep : ascii) (s : string) : list string :=
  match s with
  | EmptyString => [EmptyString]
  | String c s' =>
      if Ascii.eqb c sep then EmptyString :: split sep s'
      else match split sep s' with
           | [] => [String c EmptyString]
           | t :: ts => String c t :: ts
           end
  end.

(** [s.startsWith(c)] for a one-character prefix. *)
Definition startsWith (c : ascii) (s : string) : bool :=
  match s with
  | String c' _ => Ascii.eqb c' c
  | EmptyString => false
  end.

(** The class [\w] of a JavaScript regular expression. *)
Definition isWordChar (c : ascii) : bool :=
  let n := nat_of_ascii c in
  (Nat.leb 48 n && Nat.leb n 57) || (Nat.leb 65 n && Nat.leb n 90)
  || (Nat.leb 97 n && Nat.leb n 122) || Nat.eqb n 95.

(** [_.includes(array, value)] on strings. *)
Definition includes (l : list string) (x : string) : bool :=
  existsb (String.eqb x) l.

(** [_.uniq]: lodash's [baseUniq] keeps a value when the values kept so
    far do not include it. *)
Fixpoint baseUniq (kept : list string) (array : list string) : list string :=
  match array with
  | [] => kept
  | x :: rest =>
      if includes kept x then baseUniq kept rest
      else baseUniq (kept ++ [x]) rest
  end.

Definition uniq (array : list string) : list string := baseUniq [] array.

(** The names of the properties that a plain object inherits from
    [Object.prototype]: those of ECMAScript and of its Annex B.  All hold a
    function, except [__proto__], an accessor that reads the prototype of
    the object, [Object.prototype] itself for a plain object. *)
Definition objectPrototypeKeys : list string :=
  [ "constructor"; "hasOwnProperty"; "isPrototypeOf"; "propertyIsEnumerable";
    "toLocaleString"; "toString"; "valueOf"; "__defineGetter__";
    "__defineSetter__"; "__lookupGetter__"; "__lookupSetter__"; "__proto__" ].

(** [object[key] = value] on a plain object, for a [value] that is not an
    object (a string or [undefined]): the inherited setter of [__proto__]
    ignores such a value, and any other key becomes an own property. *)
Definition assign {V : Type} (key : string) (value : V) (own : gmap string V)
  : gmap string V :=
  if String.eqb key "__proto__" then own else <[key := value]> own.

End Js.

Global Instance result_ret : MRet Js.result := @Js.Ok.
Global Instance result_bind : MBind Js.result := fun A B k r => Js.bind r k.
Global Instance result_fmap : FMap Js.result :=
  fun A B f r => Js.bind r (fun a => Js.Ok (f a)).

(** [String(f)] for the built-in function that [Object.prototype] holds
    under the name given: ECMAScript leaves this text to the engine. *)
Class NativeSource : Type := nativeSource : string -> string.

(** ** Middleware store (src/Middleware/index.ts) *)

Module Middleware.

(** The two module-level tables; [namedMiddleware] is the plain object
    [{}], given by its own properties. *)
Record Store : Type := mkStore {
  globalMiddleware : list string;
  namedMiddleware : gmap string string
}.

(** [Middleware.new] *)
Definition new : Store := mkStore [] ∅.

(** [Middleware.register(key, namespace)]; a missing second argument is
    [None]. *)
Definition register (key : string) (namespace : option string) (st : Store) : Store :=
  if negb (Js.truthy_opt namespace)
  then mkStore (globalMiddleware st ++ [key]) (namedMiddleware st)
  else mkStore (globalMiddleware st)
               (Js.assign key (default EmptyString namespace) (namedMiddleware st)).

(** [Middleware.global(arrayOfMiddleware)] *)
Definition global (arrayOfMiddleware : list string) (st : Store) : Store :=
  mkStore (globalMiddleware st ++ Js.uniq arrayOfMiddleware) (namedMiddleware st).

(** [Middleware.named(namedMiddleware)]: [_.each] visits the own
    properties of the object, here in the order in which the object
    enumerates them. *)
Definition named (mapping : list (string * option string)) (st : Store) : Store :=
  fold_left (fun acc entry => register (fst entry) (snd entry) acc) mapping st.

Definition getGlobal (st : Store) : list string := globalMiddleware st.
Definition getNamed (st : Store) : gmap string string := namedMiddleware st.

(** [Middleware.fetchParams(params)] *)
Definition fetchParams (params : option string) : list string :=
  match params with
  | Some p => if Js.truthy p then Js.split "," p else []
  | None => []
  end.

(** [RuntimeException.missingNamedMiddleware(name)] *)
Definition missingNamedMiddleware (name : string) : Js.Exception :=
  Js.RuntimeException (name +:+ " is not registered as a named middleware")
                      500 "E_MISSING_NAMED_MIDDLEWARE".

(** [key.split(':')[0]], the key looked up in the named table. *)
Definition baseKey (key : string) : string :=
  default EmptyString (Js.split ":" key !! 0).

(** The parameters of a raw key, in the words of the specification as
    amended: the text between the first and the second colon, split on
    commas when it is not empty; no parameters otherwise. *)
Definition keyParams (key : string) : list string :=
  match Js.split ":" key with
  | _ :: text :: _ => if String.eqb text EmptyString then [] else Js.split "," text
  | _ => []
  end.

(** The named table only holds truthy namespaces: [register] sends a falsy
    one to the global list. *)
Definition namedTruthy (st : Store) : Prop :=
  forall k ns, namedMiddleware st !! k = Some ns -> Js.truthy ns = true.

(** A key whose base key has a (truthy) namespace in the named table. *)
Definition registered (st : Store) (key : string) : Prop :=
  exists ns, namedMiddleware st !! baseKey key = Some ns /\ Js.truthy ns = true.

(** A key whose base key reads a value in the named table: a (truthy)
    namespace of the table, or what the table inherits when it has no entry
    under the base key. *)
Definition found (st : Store) (key : string) : Prop :=
  registered st key
  \/ (namedMiddleware st !! baseKey key = None
      /\ baseKey key ∈ Js.objectPrototypeKeys).

(** The value that [this.namedMiddleware[key]] reads: the namespace stored
    under the key, or else what the table inherits under it, or else
    [undefined]. *)
Inductive Namespace : Type :=
| Registered (namespace : string)
| Inherited (property : string)
| Missing.

Definition lookupNamed (st : Store) (key : string) : Namespace :=
  match namedMiddleware st !! key with
  | Some namespace => Registered namespace
  | None => if Js.includes Js.objectPrototypeKeys key then Inherited key else Missing
  end.

(** The object built by [formatNamedMiddleware]: its own properties, and
    the array that an assignment to [__proto__] has made its prototype. *)
Record Structured : Type := mkStructured {
  entries : gmap string (list string);
  prototype : option (list string)
}.

(** [structured[key] = parameters]: an array is an object, so under the key
    [__proto__] it becomes the prototype and no own property is added. *)
Definition setEntry (key : string) (parameters : list string) (structured : Structured)
  : Structured :=
  if String.eqb key "__proto__"
  then mkStructured (entries structured) (Some parameters)
  else mkStructured (<[key := parameters]> (entries structured)) (prototype structured).

Section Format.
Context `{NativeSource}.

(** The property key that an inherited value gives when it is used as a
    key: the text of the function, and [[object Object]] for the prototype
    that [__proto__] reads. *)
Definition inheritedKey (property : string) : string :=
  if String.eqb property "__proto__" then "[object Object]" else nativeSource property.

(** One step of the reducer of [formatNamedMiddleware]. *)
Definition formatStep (st : Store) (structured : Structured) (key : string)
  : Js.result Structured :=
  let tokens := Js.split ":" key in
  let base := baseKey key in
  match lookupNamed st base with
  | Registered middlewareNamespace =>
      if Js.truthy middlewareNamespace
      then Js.Ok (setEntry middlewareNamespace (fetchParams (tokens !! 1)) structured)
      else Js.Throw (missingNamedMiddleware base)
  | Inherited property =>
      Js.Ok (setEntry (inheritedKey property) (fetchParams (tokens !! 1)) structured)
  | Missing => Js.Throw (missingNamedMiddleware base)
  end.

(** [Middleware.formatNamedMiddleware(keys)]: [_.reduce] from the empty
    object; a throw inside the reducer ends the reduction. *)
Fixpoint reduceKeys (st : Store) (keys : list string) (structured : Structured)
  : Js.result Structured :=
  match keys with
  | [] => Js.Ok structured
  | key :: rest =>
      structured' ← formatStep st structured key;
      reduceKeys st rest structured'
  end.

Definition formatNamedMiddleware (st : Store) (keys : list string)
  : Js.result Structured :=
  reduceKeys st keys (mkStructured ∅ None).

End Format.

End Middleware.

(** ** Compiled route patterns

    [pathToRegexp] and [pathToRegexp.compile] come from the path-to-regexp
    package, which is not part of the repository.  The router only uses the
    interface below: a compiled pattern can be executed against a string
    ([exec] returns [null] or the match array, whose unmatched groups are
    [undefined]) and carries the ordered names of its parameters ([keys]);
    [compile(route)(values)] builds a url and may throw. *)

Class PathToRegexp : Type := {
  RegExp : Type;
  pathToRegexp : string -> RegExp;
  regexp_exec : RegExp -> string -> option (list (option string));
  regexp_keys : RegExp -> list string;
  pathToRegexp_compile : string -> gmap string string -> Js.result string
}.

(** [RegExp.prototype.test]: true exactly when [exec] finds a match. *)
Definition regexp_test `{PathToRegexp} (re : RegExp) (s : string) : bool :=
  match regexp_exec re s with Some _ => true | None => false end.

(** ** Route records and the helpers of src/Route/helpers.ts *)

Inductive Handler : Type :=
| HString (action : string)
| HClosure (id : nat)
| HNull.

Section RouteRecords.
Context `{PathToRegexp}.

(** The object built by [construct].  [matchedVerb] and [params] are the
    two properties that resolution adds to an object; they are absent
    ([None]) on a record that has just been built.  [params] is a plain
    object, given by its own properties. *)
Record RouteRecord : Type := mkRoute {
  route : string;
  verb : list string;
  handler : Handler;
  pattern : RegExp;
  middlewares : list string;
  name : string;
  group : option string;
  domain : option string;
  matchedVerb : option string;
  params : option (gmap string (option string))
}.

Definition set_name (n : string) (r : RouteRecord) : RouteRecord :=
  mkRoute (route r) (verb r) (handler r) (pattern r) (middlewares r) n
          (group r) (domain r) (matchedVerb r) (params r).

Definition set_domain (d : option string) (r : RouteRecord) : RouteRecord :=
  mkRoute (route r) (verb r) (handler r) (pattern r) (middlewares r) (name r)
          (group r) d (matchedVerb r) (params r).

Definition set_matchedVerb (v : option string) (r : RouteRecord) : RouteRecord :=
  mkRoute (route r) (verb r) (handler r) (pattern r) (middlewares r) (name r)
          (group r) (domain r) v (params r).

Definition set_params (ps : option (gmap string (option string))) (r : RouteRecord)
  : RouteRecord :=
  mkRoute (route r) (verb r) (handler r) (pattern r) (middlewares r) (name r)
          (group r) (domain r) (matchedVerb r) ps.

End RouteRecords.

Module RouterHelper.
Section Helpers.
Context `{PathToRegexp}.

(** [makeRoutePattern(route)] *)
Definition makeRoutePattern (route : string) : RegExp := pathToRegexp route.

(** [construct(route, verb, handler, group)].  Every caller in the
    registry passes an array of verbs, so [verb] is a list. *)
Definition construct (route : string) (verb : list string) (handler : Handler)
           (group : option string) : RouteRecord :=
  let route := if Js.startsWith "/" route then route else "/" +:+ route in
  let pattern := makeRoutePattern route in
  let middlewares := [] in
  let domain := None in
  let name := route in
  mkRoute route verb handler pattern middlewares name group domain None None.

(** The test at the end of the predicate of [returnMatchingRouteToUrl]:
    [route.pattern.test(urlPath) && _.includes(route.verb, verb)]. *)
Definition matchesUrl (urlPath verb' : string) (r : RouteRecord) : bool :=
  regexp_test (pattern r) urlPath && Js.includes (verb r) verb'.

(** That predicate on one record.  For a record with a domain it first
    calls [route.makeRoutePattern]; the record is the plain object built by
    [construct], which has no such method, so the call throws before
    anything is assigned. *)
Definition visit (urlPath verb' : string) (r : RouteRecord) : Js.result bool :=
  if Js.truthy_opt (domain r)
  then Js.Throw (Js.TypeError "route.makeRoutePattern is not a function")
  else Js.Ok (matchesUrl urlPath verb' r).

(** [_.filter(routes, predicate)]: the records are visited in order, and
    the result holds the records kept, each with its index in [routes]
    since it is the very object of the registry. *)
Fixpoint filterMatching (urlPath verb' : string) (index : nat) (routes : list RouteRecord)
  : Js.result (list (nat * RouteRecord)) :=
  match routes with
  | [] => Js.Ok []
  | r :: rest =>
      keep ← visit urlPath verb' r;
      kept ← filterMatching urlPath verb' (S index) rest;
      mret (if keep : bool then (index, r) :: kept else kept)
  end.

(** [returnMatchingRouteToUrl(routes, urlPath, verb)]: [maps[0] || {}] is
    [None] for the empty object; [maps.verb] is an array, hence truthy, so
    [matchedVerb] is written on the registry's record.  Returns the record
    found and the registry after the write. *)
Definition returnMatchingRouteToUrl (routes : list RouteRecord) (urlPath verb' : string)
  : Js.result (option RouteRecord) * list RouteRecord :=
  match filterMatching urlPath verb' 0 routes with
  | Js.Throw e => (Js.Throw e, routes)
  | Js.Ok maps =>
      match maps !! 0 with
      | Some (index, r) =>
          (Js.Ok (Some (set_matchedVerb (Some verb') r)),
           alter (set_matchedVerb (Some verb')) index routes)
      | None => (Js.Ok None, routes)
      end
  end.

(** The loop of [returnRouteArguments]: [params[key.name] =
    extracted[index + 1]] for each key; reading an index of [null]
    throws. *)
Fixpoint assignParams (keys : list string) (index : nat)
         (extracted : option (list (option string)))
         (ps : gmap string (option string))
  : Js.result (gmap string (option string)) :=
  match keys with
  | [] => Js.Ok ps
  | key :: rest =>
      match extracted with
      | None => Js.Throw (Js.TypeError "Cannot read properties of null")
      | Some groups =>
          assignParams rest (S index) extracted
                       (Js.assign key (default None (groups !! S index)) ps)
      end
  end.

(** [returnRouteArguments(route, urlPath)]: [_.clone(route)] is a new
    object with the properties of [route]; [params] is written on the
    clone, which is returned. *)
Definition returnRouteArguments (r : RouteRecord) (urlPath : string)
  : Js.result RouteRecord :=
  let routeShallowCopy := r in
  let extracted := regexp_exec (pattern routeShallowCopy) urlPath in
  ps ← assignParams (regexp_keys (pattern routeShallowCopy)) 0 extracted ∅;
  mret (set_params (Some ps) routeShallowCopy).

(** [compileRouteToUrl(route, values)] *)
Definition compileRouteToUrl (route : string) (values : gmap string string)
  : Js.result string :=
  pathToRegexp_compile route values.

(** [addDomain(routes, domain)] on the records referenced by [refs]. *)
Definition addDomain (refs : list nat) (d : string) (routes : list RouteRecord)
  : list RouteRecord :=
  fold_left (fun rs i => alter (set_domain (Some d)) i rs) refs routes.

End Helpers.
End RouterHelper.

(** ** Array primitives of the registry *)

(** [_.findIndex(array, predicate)]: the index of the first element that
    satisfies the predicate, [-1] when there is none. *)
Fixpoint findIndexFrom {A : Type} (p : A -> bool) (from : Z) (l : list A) : Z :=
  match l with
  | [] => (-1)%Z
  | x :: rest => if p x then from else findIndexFrom p (from + 1)%Z rest
  end.

Definition findIndex {A : Type} (p : A -> bool) (l : list A) : Z :=
  findIndexFrom p 0%Z l.

(** [array.indexOf(value)] on strings. *)
Definition indexOf (l : list string) (x : string) : Z :=
  findIndex (String.eqb x) l.

(** [array.splice(start, deleteCount)]: a negative [start] counts from the
    end of the array, as ECMAScript defines it. *)
Definition splice {A : Type} (start : Z) (deleteCount : nat) (l : list A) : list A :=
  let len := Z.of_nat (length l) in
  let actualStart :=
    if (start <? 0)%Z then Z.max (len + start) 0 else Z.min start len in
  take (Z.to_nat actualStart) l ++ drop (Z.to_nat actualStart + deleteCount) l.

(** ** The route registry (src/Route/index.ts, classes [Route] and [Domains]) *)

Module Route.
Section Registry.
Context `{PathToRegexp}.

Local Abbreviation template := route (only parsing).
Local Abbreviation groupTag := group (only parsing).

(** The state of the module: the registered routes, the active group and
    the domains registered through groups. *)
Record Router : Type := mkRouter {
  routes : list RouteRecord;
  activeGroup : option string;
  registeredDomains : list RegExp
}.

Definition set_routes (rs : list RouteRecord) (st : Router) : Router :=
  mkRouter rs (activeGroup st) (registeredDomains st).

(** [Route.new], on a module without domains. *)
Definition new : Router := mkRouter [] None [].

(** [Route.route(route, verb, handler)] *)
Definition route (path : string) (verb : list string) (handler : Handler)
           (st : Router) : Router :=
  let constructedRoute := RouterHelper.construct path verb handler (activeGroup st) in
  set_routes (routes st ++ [constructedRoute]) st.

Definition get (path : string) (handler : Handler) : Router -> Router :=
  route path ["GET"; "HEAD"] handler.
Definition post (path : string) (handler : Handler) : Router -> Router :=
  route path ["POST"] handler.
Definition put (path : string) (handler : Handler) : Router -> Router :=
  route path ["PUT"] handler.
Definition patch (path : string) (handler : Handler) : Router -> Router :=
  route path ["PATCH"] handler.
Definition delete (path : string) (handler : Handler) : Router -> Router :=
  route path ["DELETE"] handler.

(** [Route._lastRoute()] *)
Definition _lastRoute (st : Router) : option RouteRecord := last (routes st).

(** [Route.as(name)]: writes the name of the last record; on an empty
    registry [_.last] is [undefined] and the write throws. *)
Definition as_ (n : string) (st : Router) : Js.result Router :=
  match _lastRoute st with
  | Some _ =>
      Js.Ok (set_routes (alter (set_name n) (length (routes st) - 1) (routes st)) st)
  | None => Js.Throw (Js.TypeError "Cannot set properties of undefined")
  end.

(** [Domains.add] and [Domains.match] *)
Definition domains_add (re : RegExp) (st : Router) : Router :=
  mkRouter (routes st) (activeGroup st) (registeredDomains st ++ [re]).

Definition domains_match (host : string) (st : Router) : bool :=
  existsb (fun d => regexp_test d host) (registeredDomains st).

(** [Route.group(name, cb)].  The predicate given to [_.filter] is a plain
    [function], so [this.activeGroup] is read on [undefined] and throws as
    soon as the predicate is called, that is when the registry holds a
    record once the callback has run; the active group is then still the
    one that the callback left.  On an empty registry the group is empty
    and the active group is reset. *)
Definition group (n : string) (cb : Router -> Router) (st : Router)
  : Js.result (list nat) * Router :=
  let st1 := cb (mkRouter (routes st) (Some n) (registeredDomains st)) in
  match routes st1 with
  | [] => (Js.Ok [], mkRouter (routes st1) None (registeredDomains st1))
  | _ :: _ => (Js.Throw (Js.TypeError "Cannot read properties of undefined"), st1)
  end.

(** [Group.domain(domain)] on the group's references. *)
Definition group_domain (groupRoutes : list nat) (d : string) (st : Router) : Router :=
  let st1 := domains_add (RouterHelper.makeRoutePattern d) st in
  set_routes (RouterHelper.addDomain groupRoutes d (routes st1)) st1.

(** [Route.resolve(urlPath, verb, host)]: the result and the module state
    after the call.  [_.size(resolvedRoute) === 0] holds for the empty
    object only, and the result [{}] is [None]. *)
Definition resolve (urlPath verb host : string) (st : Router)
  : Js.result (option RouteRecord) * Router :=
  let urlPath := if domains_match host st then host +:+ urlPath else urlPath in
  let '(resolvedRoute, routes') :=
    RouterHelper.returnMatchingRouteToUrl (routes st) urlPath verb in
  let st' := set_routes routes' st in
  match resolvedRoute with
  | Js.Throw e => (Js.Throw e, st')
  | Js.Ok None => (Js.Ok None, st')
  | Js.Ok (Some r) => (Some <$> RouterHelper.returnRouteArguments r urlPath, st')
  end.

(** [Route.url(pattern, params)] *)
Definition url (pattern : string) (values : gmap string string) (st : Router)
  : Js.result string :=
  let namedRoute := filter (fun r => name r = pattern) (routes st) !! 0 in
  match namedRoute with
  | Some r =>
      let resolveRoute :=
        if Js.truthy_opt (domain r)
        then default EmptyString (domain r) +:+ template r
        else template r in
      RouterHelper.compileRouteToUrl resolveRoute values
  | None => RouterHelper.compileRouteToUrl pattern values
  end.

(** [Route.remove(name)] *)
Definition remove (n : string) (st : Router) : Router :=
  let index := findIndex (fun r => String.eqb (name r) n) (routes st) in
  set_routes (splice index 1 (routes st)) st.

End Registry.
End Route.

(** ** Resources (src/Route/index.ts, class [Resource])

    [Resource] extends [Route]: a resource is a router of its own, and
    [super.route], [super._lastRoute] and [super.remove] act on the
    resource's own [routes] array, not on the registry.  The array holds
    references to the records that the resource has built; [records] keeps
    those records in the order in which they were built, and a reference is
    an index in it.  The active group of a resource is [null]. *)

Module Resource.
Section Resources.
Context `{PathToRegexp}.

Record Resource : Type := mkResource {
  r_pattern : string;
  r_handler : string;
  records : list RouteRecord;
  r_routes : list nat;
  basename : string
}.

Definition set_records (rs : list RouteRecord) (res : Resource) : Resource :=
  mkResource (r_pattern res) (r_handler res) rs (r_routes res) (basename res).

Definition set_routes (refs : list nat) (res : Resource) : Resource :=
  mkResource (r_pattern res) (r_handler res) (records res) refs (basename res).

(** [pattern.replace(/(\w+)\./g, (m, group) => `${group}/:${group}_id/`)]:
    a match is a maximal run of word characters directly followed by a
    dot; [word] is the run read so far. *)
Fixpoint replaceDotted (word : string) (s : string) : string :=
  match s with
  | EmptyString => word
  | String c s' =>
      if Js.isWordChar c then replaceDotted (word +:+ String c EmptyString) s'
      else if Ascii.eqb c "." then
        (if Js.truthy word then word +:+ "/:" +:+ word +:+ "_id/" else ".")
          +:+ replaceDotted EmptyString s'
      else word +:+ String c (replaceDotted EmptyString s')
  end.

(** [s.replace(/\/$/, '')] *)
Fixpoint trimTrailingSlash (s : string) : string :=
  match s with
  | EmptyString => EmptyString
  | String c s' =>
      if Ascii.eqb c "/" && negb (Js.truthy s') then EmptyString
      else String c (trimTrailingSlash s')
  end.

(** [s.replace('/', '')]: only the first occurrence is replaced. *)
Fixpoint removeFirstSlash (s : string) : string :=
  match s with
  | EmptyString => EmptyString
  | String c s' => if Ascii.eqb c "/" then s' else String c (removeFirstSlash s')
  end.

(** [Resource._makePattern(pattern)] *)
Definition _makePattern (pattern : string) : string :=
  trimTrailingSlash (replaceDotted EmptyString pattern).

(** [InvalidArgumentException.invalidParameter(message)] *)
Definition invalidParameter (message : string) : Js.Exception :=
  Js.InvalidArgumentException message 500 "E_INVALID_PARAMETER".

(** [Resource._transformKeys(pairKeys)] on an array. *)
Definition _transformKeys (res : Resource) (pairKeys : list string) : list string :=
  map (fun item => basename res +:+ "." +:+ item) pairKeys.

(** The characters of a string, each as a string: [pairs[i]]. *)
Fixpoint characters (s : string) : list string :=
  match s with
  | EmptyString => []
  | String c s' => String c EmptyString :: characters s'
  end.

(** [_.keys(pairs)] for a string: the indices of its characters, in
    decimal. *)
Definition stringKeys (pairs : string) : list string :=
  map pretty (seq 0 (String.length pairs)).

(** The write of [Resource.as] on one record: [pairIndex] is an index of
    [pairKeys], whose element there is that index in decimal, so
    [pairs[pairKeys[pairIndex]]] is the character at [pairIndex]. *)
Definition rename (pairs : string) (pairTransformedKeys : list string) (r : RouteRecord)
  : RouteRecord :=
  let pairIndex := indexOf pairTransformedKeys (name r) in
  if (pairIndex >? -1)%Z
  then match characters pairs !! Z.to_nat pairIndex with
       | Some c => set_name c r
       | None => r
       end
  else r.

(** [Resource.as(pairs)], the override that [.as(resourceName)] reaches in
    [_registerRoute], where [pairs] is a string. *)
Definition as_ (pairs : string) (res : Resource) : Resource :=
  let pairKeys := stringKeys pairs in
  let pairTransformedKeys := _transformKeys res pairKeys in
  set_records
    (fold_left (fun rs ref => alter (rename pairs pairTransformedKeys) ref rs)
               (r_routes res) (records res))
    res.

(** [Resource._registerRoute(verb, route, handler, name)]: [super.route]
    pushes the record built on the resource's array, [.as] is the override
    above, and [super._lastRoute()] is that record again, which is pushed a
    second time.  Returns the reference to the record. *)
Definition _registerRoute (verb : list string) (path : string) (handler name : string)
           (res : Resource) : nat * Resource :=
  let resourceName :=
    if String.eqb (basename res) "/" || negb (Js.truthy (basename res))
    then name else basename res +:+ "." +:+ name in
  let constructedRoute :=
    RouterHelper.construct path verb (HString (handler +:+ "." +:+ name)) None in
  let ref := length (records res) in
  let res :=
    mkResource (r_pattern res) (r_handler res) (records res ++ [constructedRoute])
               (r_routes res ++ [ref]) (basename res) in
  let res := as_ resourceName res in
  let registeredRoute := default ref (last (r_routes res)) in
  (registeredRoute, set_routes (r_routes res ++ [registeredRoute]) res).

(** [Resource._buildRoutes()] *)
Definition _buildRoutes (res : Resource) : Resource :=
  let p := r_pattern res in
  let h := r_handler res in
  let res := (_registerRoute ["GET"; "HEAD"] p h "index" res).2 in
  let res := (_registerRoute ["GET"; "HEAD"] (p +:+ "/create") h "create" res).2 in
  let res := (_registerRoute ["POST"] p h "store" res).2 in
  let res := (_registerRoute ["GET"; "HEAD"] (p +:+ "/:id") h "show" res).2 in
  let res := (_registerRoute ["GET"; "HEAD"] (p +:+ "/:id/edit") h "edit" res).2 in
  let res := (_registerRoute ["PUT"; "PATCH"] (p +:+ "/:id") h "update" res).2 in
  let res := (_registerRoute ["DELETE"] (p +:+ "/:id") h "destroy" res).2 in
  res.

(** [new Resource(Route, pattern, handler)].  [this.log = super.log] reads
    [log] on the prototype of [Route], where it is [undefined], so the
    warning for the pattern [/] throws. *)
Definition new (pattern : string) (handler : Handler) : Js.result Resource :=
  match handler with
  | HString h =>
      if String.eqb pattern "/"
      then Js.Throw (Js.TypeError "Cannot read properties of undefined (reading 'warn')")
      else Js.Ok (_buildRoutes
                    (mkResource (_makePattern pattern) h [] [] (removeFirstSlash pattern)))
  | _ => Js.Throw (invalidParameter "You can only bind controllers to resources")
  end.

(** A record whose name is not one that [_transformKeys] can give. *)
Definition pathNamed (res : Resource) (r : RouteRecord) : Prop :=
  forall item, name r ≠ basename res +:+ "." +:+ item.

(** The record that a reference of the array denotes. *)
Definition deref (res : Resource) (ref : nat) : option RouteRecord :=
  records res !! ref.

(** [super.remove(name)]: [Route.remove] on the array of the resource. *)
Definition remove (n : string) (res : Resource) : Resource :=
  let index :=
    findIndex (fun ref => match deref res ref with
                          | Some r => String.eqb (name r) n
                          | None => false
                          end) (r_routes res) in
  set_routes (splice index 1 (r_routes res)) res.

(** The loop of [_.filter(this.routes, predicate)] for the predicates of
    [only] and [except]: lodash reads the length of the array once
    ([steps]) and then the element at each index, while the predicate
    removes elements from that very array; an index past the end reads
    [undefined], on which [route.name] throws.  [drop] tells from the name
    whether the predicate removes the record (and returns [undefined]) or
    returns [true]. *)
Fixpoint filterLoop (drop : string -> bool) (steps index : nat) (res : Resource)
         (kept : list nat) : Js.result (list nat) * Resource :=
  match steps with
  | 0 => (Js.Ok kept, res)
  | S steps' =>
      match r_routes res !! index ≫= (fun ref => (fun r => (ref, r)) <$> deref res ref) with
      | None =>
          (Js.Throw (Js.TypeError "Cannot read properties of undefined (reading 'name')"),
           res)
      | Some (ref, r) =>
          if drop (name r)
          then filterLoop drop steps' (S index) (remove (name r) res) kept
          else filterLoop drop steps' (S index) res (kept ++ [ref])
      end
  end.

(** [this.routes = _.filter(this.routes, predicate)] *)
Definition filterRoutes (drop : string -> bool) (res : Resource)
  : Js.result unit * Resource :=
  let '(result, res') := filterLoop drop (length (r_routes res)) 0 res [] in
  match result with
  | Js.Ok kept => (Js.Ok tt, set_routes kept res')
  | Js.Throw e => (Js.Throw e, res')
  end.

(** [Resource.only(methods)], where [methods] is the array that
    [this.util.spread] gives for the arguments. *)
Definition only (methods : list string) (res : Resource) : Js.result unit * Resource :=
  let transformedMethods := _transformKeys res methods in
  filterRoutes (fun n => (indexOf transformedMethods n <=? -1)%Z) res.

(** [Resource.except(methods)] *)
Definition except (methods : list string) (res : Resource) : Js.result unit * Resource :=
  let transformedMethods := _transformKeys res methods in
  filterRoutes (fun n => (indexOf transformedMethods n >? -1)%Z) res.

(** The seven conventional actions in the order of [_buildRoutes]: the
    action, its verbs and the suffix of its path. *)
Definition actions : list (string * list string * string) :=
  [ ("index", ["GET"; "HEAD"], "");
    ("create", ["GET"; "HEAD"], "/create");
    ("store", ["POST"], "");
    ("show", ["GET"; "HEAD"], "/:id");
    ("edit", ["GET"; "HEAD"], "/:id/edit");
    ("update", ["PUT"; "PATCH"], "/:id");
    ("destroy", ["DELETE"], "/:id") ].

(** The record that [_buildRoutes] builds for an action of the resource
    [base] bound to [controller]: its path is [{base}{suffix}] with the
    leading slash that [construct] adds to a path that has none, and its
    name is that path. *)
Definition actionRecord (base controller : string)
           (a : string * list string * string) : RouteRecord :=
  let path := _makePattern base +:+ a.2 in
  let path := if Js.startsWith "/" path then path else "/" +:+ path in
  mkRoute path a.1.2 (HString (controller +:+ "." +:+ a.1.1))
          (pathToRegexp path) [] path None None None None.

(** The base path in the words of the specification: every dotted segment
    except the last becomes [segment/:segment_id/], the results are
    concatenated with the last segment, and the trailing slash is trimmed. *)
Fixpoint expandSegments (segments : list string) : string :=
  match segments with
  | [] => EmptyString
  | [s] => s
  | s :: rest => s +:+ "/:" +:+ s +:+ "_id/" +:+ expandSegments rest
  end.

Definition nestedBase (base : string) : string :=
  trimTrailingSlash (expandSegments (Js.split "." base)).

(** The segments of a string whose first segment continues [word]. *)
Definition prependFirst (word : string) (segments : list string) : list string :=
  match segments with
  | [] => [word]
  | s :: rest => (word +:+ s) :: rest
  end.

(** A non-empty run of word characters. *)
Fixpoint allWordChars (s : string) : bool :=
  match s with
  | EmptyString => true
  | String c s' => Js.isWordChar c && allWordChars s'
  end.

Definition wordRun (s : string) : bool := Js.truthy s && allWordChars s.

End Resources.
End Resource.

(** ** Middleware composition (src/Middleware/index.ts, [compose])

    A generator object is a suspended computation: running it to its end
    ([yield* next], or [yield next] under co) extends the log of observable
    events and gives its return value, [None] for [undefined].  Calling a
    generator function only builds the generator object. *)

Module Compose.
Section Chain.
Variables Request Response Instance Value Event : Type.

Definition Generator : Type := list Event -> option Value * list Event.

(** A middleware method: [this], [request], [response], [next] and the
    parameters bound to it. *)
Definition MiddlewareFn : Type :=
  option Instance -> Request -> Response -> Generator -> list string -> Generator.

(** [instance[name]] *)
Variable methodOf : Instance -> string -> option MiddlewareFn.

Inductive Method : Type :=
| MethodName (n : string)
| MethodFunction (f : MiddlewareFn).

(** An entry of the list given to [compose]: a function, or the object
    [{ instance, method, parameters }] built by [resolve]. *)
Inductive Entry : Type :=
| Fn (f : MiddlewareFn)
| Obj (instance : option Instance) (method : Method) (parameters : list string).

(** The uniform object of [_composeFunction] and [_composeObject]; a
    [method] that is not callable is [None]. *)
Record Composed : Type := mkComposed {
  c_instance : option Instance;
  c_method : option MiddlewareFn;
  c_parameters : list string
}.

Definition _composeFunction (middleware : MiddlewareFn) : Composed :=
  mkComposed None (Some middleware) [].

Definition _composeObject (instance : option Instance) (m : Method)
           (parameters : list string) : Composed :=
  let method :=
    match instance, m with
    | Some i, MethodName n => methodOf i n
    | Some _, MethodFunction _ => None
    | None, MethodFunction f => Some f
    | None, MethodName _ => None
    end in
  mkComposed instance method parameters.

Definition composeEntry (e : Entry) : Composed :=
  match e with
  | Fn f => _composeFunction f
  | Obj instance m parameters => _composeObject instance m parameters
  end.

(** [function* noop() {}] *)
Definition noop : Generator := fun log => (None, log).

(** The body of [forEachRight]: [next = middleware.method.apply(
    middleware.instance, [request, response, next].concat(parameters))]. *)
Definition wrap (request : Request) (response : Response) (middleware : Composed)
           (next : Js.result Generator) : Js.result Generator :=
  next ← next;
  match c_method middleware with
  | Some method =>
      mret (method (c_instance middleware) request response next
                   (c_parameters middleware))
  | None => Js.Throw (Js.TypeError "middleware.method.apply is not a function")
  end.

(** [compose(middlewareList, request, response)(next)]: the generator
    that the composed generator function delegates to. *)
Definition compose (middlewareList : list Entry) (request : Request)
           (response : Response) (next : option Generator) : Js.result Generator :=
  let next := default noop next in
  foldr (wrap request response) (Js.Ok next) (map composeEntry middlewareList).

(** An entry whose method is callable. *)
Definition resolves (e : Entry) : Prop := is_Some (c_method (composeEntry e)).

(** A middleware that never uses its [next] argument. *)
Definition ignoresNext (method : MiddlewareFn) : Prop :=
  forall this request response next1 next2 parameters,
    method this request response next1 parameters
    = method this request response next2 parameters.

(** The middleware [function* (request, response, next, ...parameters)
    { enter; const v = yield next; leave; return v }]: it records the
    arguments it was called with, runs the next step and records that it is
    done. *)
Definition around (enter : Request -> Response -> list string -> Event)
           (leave : Event) : MiddlewareFn :=
  fun this request response next parameters log =>
    let '(v, log') := next (log ++ [enter request response parameters]) in
    (v, log' ++ [leave]).

End Chain.

Global Arguments Fn {Request Response Instance Value Event} f.
Global Arguments Obj {Request Response Instance Value Event} instance method parameters.
Global Arguments MethodName {Request Response Instance Value Event} n.
Global Arguments MethodFunction {Request Response Instance Value Event} f.
Global Arguments c_instance {Request Response Instance Value Event} c.
Global Arguments c_method {Request Response Instance Value Event} c.
Global Arguments c_parameters {Request Response Instance Value Event} c.
Global Arguments composeEntry {Request Response Instance Value Event} methodOf e.
Global Arguments noop {Value Event} log.
Global Arguments wrap {Request Response Instance Value Event} request response middleware next.
Global Arguments compose {Request Response Instance Value Event} methodOf middlewareList request response next.
Global Arguments resolves {Request Response Instance Value Event} methodOf e.
Global Arguments ignoresNext {Request Response Instance Value Event} method.
Global Arguments around {Request Response Instance Value Event} enter leave this request response next parameters log.

End Compose.

(** ** A pattern compiler for the examples *)

(** Modelled from the spec: the PatternCompiler of §4.1, which the sources
    import from the path-to-regexp package.  A template is a sequence of
    literal characters and [:name] parameters; a parameter matches a
    non-empty run of characters without a slash, the shortest that lets the
    rest of the template match; [exec] gives the whole match followed by the
    value of each parameter; reverse compilation replaces each parameter by
    its value and fails when a value is missing. *)
Module SegmentPattern.

Inductive Token : Type :=
| Lit (c : ascii)
| Param (name : string).

Fixpoint tokens (cur : option string) (s : string) : list Token :=
  match s with
  | EmptyString => match cur with Some n => [Param n] | None => [] end
  | String c s' =>
      let start :=
        if Ascii.eqb c ":" then tokens (Some EmptyString) s'
        else Lit c :: tokens None s' in
      match cur with
      | Some n =>
          if Js.isWordChar c then tokens (Some (n +:+ String c EmptyString)) s'
          else Param n :: start
      | None => start
      end
  end.

Fixpoint matchTokens (ts : list Token) (url : string) : option (list string) :=
  match ts with
  | [] => match url with EmptyString => Some [] | String _ _ => None end
  | Lit c :: ts' =>
      match url with
      | String c' url' => if Ascii.eqb c c' then matchTokens ts' url' else None
      | EmptyString => None
      end
  | Param _ :: ts' =>
      (fix run (value : string) (u : string) : option (list string) :=
         match u with
         | EmptyString => None
         | String c u' =>
             if Ascii.eqb c "/" then None
             else
               let value := value +:+ String c EmptyString in
               match matchTokens ts' u' with
               | Some groups => Some (value :: groups)
               | None => run value u'
               end
         end) EmptyString url
  end.

Definition exec (re : list Token) (url : string) : option (list (option string)) :=
  match matchTokens re url with
  | Some groups => Some (Some url :: map Some groups)
  | None => None
  end.

Definition keys (re : list Token) : list string :=
  omap (fun t => match t with Param n => Some n | Lit _ => None end) re.

Fixpoint toUrl (ts : list Token) (values : gmap string string) : Js.result string :=
  match ts with
  | [] => Js.Ok EmptyString
  | Lit c :: ts' => String c <$> toUrl ts' values
  | Param n :: ts' =>
      match values !! n with
      | Some v => String.append v <$> toUrl ts' values
      | None => Js.Throw (Js.TypeError ("Expected " +:+ n +:+ " to be defined"))
      end
  end.

Definition compile (path : string) (values : gmap string string) : Js.result string :=
  toUrl (tokens None path) values.

Global Instance segmentPatterns : PathToRegexp := {|
  RegExp := list Token;
  pathToRegexp := tokens None;
  regexp_exec := exec;
  regexp_keys := keys;
  pathToRegexp_compile := compile
|}.

End SegmentPattern.

(** ** Registries used in the examples *)

Module Examples.

(** [Route.get('/user/create', ...)] then [Route.get('/user/:id', ...)]. *)
Definition userRoutes : Route.Router :=
  Route.get "/user/:id" (HString "UserController.show")
    (Route.get "/user/create" (HString "UserController.create") Route.new).

(** [Route.get('/users', ...)], then [new Group([record])
      .domain('admin.example.com')] on the record registered. *)
Definition adminRoutes : Route.Router :=
  Route.group_domain [0] "admin.example.com"
    (Route.get "/users" (HString "AdminController.users") Route.new).

(** [Route.get('/user/:id', ...).as('user.show')]. *)
Definition namedRoutes : Js.result Route.Router :=
  Route.as_ "user.show"
    (Route.get "/user/:id" (HString "UserController.show") Route.new).

(** The text that the V8 engine gives for the built-in functions of
    [Object.prototype]; [constructor] holds the function [Object]. *)
Definition v8Source : NativeSource :=
  fun property =>
    "function " +:+ (if String.eqb property "constructor" then "Object" else property)
                +:+ "() { [native code] }".

End Examples.

(** ** Further operations of the registry, of groups and of resources *)

Module JsString.

(** [array.join(sep)] on strings. *)
Fixpoint join (sep : string) (l : list string) : string :=
  match l with
  | [] => EmptyString
  | [x] => x
  | x :: rest => x +:+ sep +:+ join sep rest
  end.

(** [s.includes(c)] for a one-character needle. *)
Fixpoint contains (c : ascii) (s : string) : bool :=
  match s with
  | EmptyString => false
  | String c' s' => Ascii.eqb c' c || contains c s'
  end.

End JsString.

(** [array[index]] for an index that may be [-1]: [undefined] outside the
    array. *)
Definition atIndex {A : Type} (l : list A) (index : Z) : option A :=
  if (index <? 0)%Z then None else l !! Z.to_nat index.

Section RecordWrites.
Context `{PathToRegexp}.

Definition set_route (t : string) (r : RouteRecord) : RouteRecord :=
  mkRoute t (verb r) (handler r) (pattern r) (middlewares r) (name r)
          (group r) (domain r) (matchedVerb r) (params r).

Definition set_middlewares (m : list string) (r : RouteRecord) : RouteRecord :=
  mkRoute (route r) (verb r) (handler r) (pattern r) m (name r)
          (group r) (domain r) (matchedVerb r) (params r).

(** The shape that registration gives to a record: its template starts
    with a slash and its pattern is the one compiled from the template. *)
Definition wellFormed (r : RouteRecord) : Prop :=
  Js.startsWith "/" (route r) = true /\ pattern r = pathToRegexp (route r).

End RecordWrites.

(** The branches of the helpers of src/Route/helpers.ts that take an array
    of records, as groups call them; the array holds records of the
    registry, referenced by their indices. *)
Module RouteBatch.
Section Batch.
Context `{PathToRegexp}.

(** [_.each(routes, function (route) { ... })] with a body that writes the
    record it visits. *)
Definition eachRecord (write : RouteRecord -> RouteRecord) (refs : list nat)
           (routes : list RouteRecord) : list RouteRecord :=
  fold_left (fun rs i => alter write i rs) refs routes.

(** [appendMiddleware(routes, middlewares)] *)
Definition appendMiddleware (refs : list nat) (mws : list string)
           (routes : list RouteRecord) : list RouteRecord :=
  eachRecord (fun r => set_middlewares (middlewares r ++ mws) r) refs routes.

(** [`:format(.${formats.join('|.')})${flag}`] *)
Definition formatsPattern (formats : list string) (strict : bool) : string :=
  let flag := (if strict then "" else "?")%string in
  ":format(." +:+ JsString.join "|." formats +:+ ")" +:+ flag.

(** [_.each(routes, callback)] for a callback that writes the template of
    the record it visits and then calls a method that is not there
    ([route.makeRoutePattern] on the plain record in [addFormats],
    [this.makeRoutePattern] without a [this] in [prefixRoute]): the call
    throws on the first record, after its template has been written and
    before its pattern is assigned; an empty array is not visited. *)
Definition eachTemplateThenThrow (template : RouteRecord -> string) (message : string)
           (refs : list nat) (routes : list RouteRecord)
  : Js.result unit * list RouteRecord :=
  match refs with
  | [] => (Js.Ok tt, routes)
  | ref :: _ =>
      (Js.Throw (Js.TypeError message),
       alter (fun r => set_route (template r) r) ref routes)
  end.

(** [addFormats(routes, formats, strict)] *)
Definition addFormats (refs : list nat) (formats : list string) (strict : bool)
           (routes : list RouteRecord) : Js.result unit * list RouteRecord :=
  let formatsPattern := formatsPattern formats strict in
  eachTemplateThenThrow (fun r => route r +:+ formatsPattern)
                        "route.makeRoutePattern is not a function" refs routes.

(** The template written by [prefixRoute] on a record. *)
Definition prefixed (prefix : string) (r : RouteRecord) : string :=
  if String.eqb (route r) "/" then prefix else prefix +:+ route r.

(** [prefixRoute(routes, prefix)] *)
Definition prefixRoute (refs : list nat) (prefix : string)
           (routes : list RouteRecord) : Js.result unit * list RouteRecord :=
  let prefix := if Js.startsWith "/" prefix then prefix else "/" +:+ prefix in
  eachTemplateThenThrow (prefixed prefix)
                        "Cannot read properties of undefined (reading 'makeRoutePattern')"
                        refs routes.

End Batch.
End RouteBatch.

(** The class [Group] of src/Route/index.ts: a group holds references to
    records of the registry. *)
Module Group.
Section Groups.
Context `{PathToRegexp}.

(** [Group.middleware(keys)] on an array of keys. *)
Definition middleware (groupRoutes : list nat) (keys : list string)
           (st : Route.Router) : Route.Router :=
  Route.set_routes (RouteBatch.appendMiddleware groupRoutes keys (Route.routes st)) st.

(** [Group.prefix(pattern)] *)
Definition prefix (groupRoutes : list nat) (pattern : string)
           (st : Route.Router) : Js.result unit * Route.Router :=
  let '(result, routes') := RouteBatch.prefixRoute groupRoutes pattern (Route.routes st) in
  (result, Route.set_routes routes' st).

(** [Group.formats(formats, strict)] *)
Definition formats (groupRoutes : list nat) (fs : list string) (strict : bool)
           (st : Route.Router) : Js.result unit * Route.Router :=
  let '(result, routes') := RouteBatch.addFormats groupRoutes fs strict (Route.routes st) in
  (result, Route.set_routes routes' st).

End Groups.
End Group.

Module Registry.
Section More.
Context `{PathToRegexp}.

(** [Route.getRoute(property)]: [property] is the test that lodash builds
    from the object given, for instance on the name or on the handler. *)
Definition getRoute (property : RouteRecord -> bool) (st : Route.Router)
  : option RouteRecord :=
  let index := findIndex property (Route.routes st) in
  atIndex (Route.routes st) index.

(** [Route.any(route, handler)] *)
Definition any (path : string) (handler : Handler) : Route.Router -> Route.Router :=
  Route.route path ["GET"; "POST"; "PUT"; "PATCH"; "DELETE"; "OPTIONS"] handler.

(** [Route.options(route, handler)] *)
Definition options (path : string) (handler : Handler) : Route.Router -> Route.Router :=
  Route.route path ["OPTIONS"] handler.

(** [Route.on(route)] *)
Definition on (path : string) : Route.Router -> Route.Router :=
  Route.get path HNull.

(** A callback of [Route.group] that registers routes one after the other
    with [Route.route]. *)
Definition registerAll (specs : list (string * list string * Handler))
           (st : Route.Router) : Route.Router :=
  fold_left (fun acc spec => Route.route spec.1.1 spec.1.2 spec.2 acc) specs st.

(** [Route.resource(name, controller)]: the resource built and the module
    state after the call. *)
Definition resource (name : string) (controller : Handler) (st : Route.Router)
  : Js.result Resource.Resource * Route.Router :=
  (Resource.new name controller, st).

End More.
End Registry.

(** [Resource.addMember] and [Resource.addCollection], called without a
    callback. *)
Module ResourceRoutes.
Section Members.
Context `{PathToRegexp}.

(** The [verbs] argument: missing, one verb or an array of verbs. *)
Inductive VerbsArg : Type :=
| NoVerbs
| OneVerb (v : string)
| Verbs (l : list string).

(** [verbs = verbs || ['GET', 'HEAD']; verbs = _.isArray(verbs) ? verbs :
    [verbs]] *)
Definition normalizeVerbs (verbs : VerbsArg) : list string :=
  match verbs with
  | NoVerbs => ["GET"; "HEAD"]
  | OneVerb v => if Js.truthy v then [v] else ["GET"; "HEAD"]
  | Verbs l => l
  end.

(** [Resource.addMember(route, verbs)] *)
Definition addMember (path : string) (verbs : VerbsArg) (res : Resource.Resource)
  : Js.result Resource.Resource :=
  if negb (Js.truthy path)
  then Js.Throw (Resource.invalidParameter "Resource.addMember expects a route")
  else
    Js.Ok (Resource._registerRoute
             (normalizeVerbs verbs)
             (Resource.r_pattern res +:+ "/:id/" +:+ path)
             (Resource.r_handler res) path res).2.

(** [Resource.addCollection(route, verbs)] *)
Definition addCollection (path : string) (verbs : VerbsArg) (res : Resource.Resource)
  : Js.result Resource.Resource :=
  if negb (Js.truthy path)
  then Js.Throw (Resource.invalidParameter "Resource.addCollection expects a route")
  else
    Js.Ok (Resource._registerRoute
             (normalizeVerbs verbs)
             (Resource.r_pattern res +:+ "/" +:+ path)
             (Resource.r_handler res) path res).2.

End Members.
End ResourceRoutes.

(** The middleware stores that a program can build: from [Middleware.new]
    by [register], [global] and [named]. *)
Inductive storeBuilt : Middleware.Store -> Prop :=
| built_new : storeBuilt Middleware.new
| built_register key namespace st :
    storeBuilt st -> storeBuilt (Middleware.register key namespace st)
| built_global batch st :
    storeBuilt st -> storeBuilt (Middleware.global batch st)
| built_named mapping st :
    storeBuilt st -> storeBuilt (Middleware.named mapping st).

(** Two records that resolution cannot tell apart: they agree on every
    property but [matchedVerb], the one that resolution writes. *)
Definition sameForResolution `{PathToRegexp} (r r' : RouteRecord) : Prop :=
  set_matchedVerb None r' = set_matchedVerb None r.

(** * Properties *)

(** ** JavaScript primitives *)

Lemma includes_true (l : list string) (x : string) :
  Js.includes l x = true <-> x ∈ l.
Proof.
  unfold Js.includes. rewrite existsb_exists. split.
  - intros (y & Hy & Heq). apply String.eqb_eq in Heq. subst.
    by apply list_elem_of_In.
  - intros Hin. exists x. split; [by apply list_elem_of_In | apply String.eqb_refl].
Qed.

Lemma includes_false (l : list string) (x : string) :
  Js.includes l x = false <-> x ∉ l.
Proof.
  rewrite <- includes_true. destruct (Js.includes l x); split; congruence.
Qed.

Lemma baseUniq_prefix (array kept : list string) :
  exists added, Js.baseUniq kept array = kept ++ added.
Proof.
  revert kept. induction array as [|x rest IH]; intros kept; simpl.
  - exists []. by rewrite app_nil_r.
  - destruct (Js.includes kept x); [apply IH|].
    destruct (IH (kept ++ [x])) as [added ->].
    exists (x :: added). by rewrite <- app_assoc.
Qed.

Lemma baseUniq_NoDup (array kept : list string) :
  NoDup kept -> NoDup (Js.baseUniq kept array).
Proof.
  revert kept. induction array as [|x rest IH]; intros kept Hk; simpl; [done|].
  destruct (Js.includes kept x) eqn:Hx; [by apply IH|].
  apply IH. apply NoDup_app. split_and!; [done| |apply NoDup_singleton].
  intros y Hy ->%list_elem_of_singleton. by apply includes_false in Hx.
Qed.

Lemma baseUniq_elem_of (array kept : list string) (x : string) :
  x ∈ Js.baseUniq kept array <-> x ∈ kept \/ x ∈ array.
Proof.
  revert kept. induction array as [|y rest IH]; intros kept; simpl.
  - rewrite elem_of_nil. tauto.
  - destruct (Js.includes kept y) eqn:Hy.
    + apply includes_true in Hy. rewrite IH, elem_of_cons.
      split; [tauto|]. intros [?|[->|?]]; tauto.
    + rewrite IH, elem_of_app, elem_of_cons, elem_of_cons, elem_of_nil. tauto.
Qed.

Lemma uniq_NoDup (array : list string) : NoDup (Js.uniq array).
Proof. apply baseUniq_NoDup, NoDup_nil_2. Qed.

Lemma uniq_elem_of (array : list string) (x : string) :
  x ∈ Js.uniq array <-> x ∈ array.
Proof. unfold Js.uniq. rewrite baseUniq_elem_of. set_solver. Qed.

Lemma uniq_nil_inv (array : list string) : Js.uniq array = [] -> array = [].
Proof.
  destruct array as [|x rest]; [done|]. intros Hu.
  assert (x ∈ Js.uniq (x :: rest)) as Hin by (apply uniq_elem_of; set_solver).
  rewrite Hu in Hin. by apply not_elem_of_nil in Hin.
Qed.

(** [_.uniq] written by recursion on the array: the first value, then the
    distinct values of the rest other than it. *)
Lemma baseUniq_filter (array kept : list string) :
  Js.baseUniq kept array = kept ++ filter (fun y => y ∉ kept) (Js.uniq array).
Proof.
  unfold Js.uniq. revert kept. induction array as [|x rest IH]; intros kept.
  - simpl. by rewrite app_nil_r.
  - simpl. destruct (Js.includes kept x) eqn:Hx.
    + apply includes_true in Hx. rewrite IH, (IH [x]). f_equal.
      rewrite filter_app, filter_cons_False, filter_nil by (intros Hn; by apply Hn).
      simpl. rewrite list_filter_filter. apply list_filter_iff.
      intros y. split; [|tauto]. intros Hy. split; [done|].
      intros ->%list_elem_of_singleton. by apply Hy.
    + apply includes_false in Hx. rewrite IH, (IH [x]).
      rewrite <- app_assoc. f_equal.
      rewrite filter_app, filter_cons_True, filter_nil by done. simpl. f_equal.
      rewrite list_filter_filter. apply list_filter_iff.
      intros y. rewrite not_elem_of_app, list_elem_of_singleton. tauto.
Qed.

Lemma uniq_cons (x : string) (rest : list string) :
  Js.uniq (x :: rest) = x :: filter (fun y => y ≠ x) (Js.uniq rest).
Proof.
  unfold Js.uniq at 1. simpl. rewrite baseUniq_filter. simpl. f_equal.
  apply list_filter_iff. intros y. by rewrite list_elem_of_singleton.
Qed.

(** ** The middleware store *)

Section MiddlewareStore.
Import Middleware.

Lemma register_falsy key namespace st :
  Js.truthy_opt namespace = false ->
  register key namespace st
  = mkStore (globalMiddleware st ++ [key]) (namedMiddleware st).
Proof. intros Hf. unfold register. by rewrite Hf. Qed.

Lemma register_truthy key ns st :
  Js.truthy ns = true ->
  register key (Some ns) st
  = mkStore (globalMiddleware st) (Js.assign key ns (namedMiddleware st)).
Proof. intros Ht. unfold register. simpl. by rewrite Ht. Qed.

Lemma assign_other {V : Type} (key k : string) (v : V) (own : gmap string V) :
  k ≠ key -> Js.assign key v own !! k = own !! k.
Proof.
  intros Hne. unfold Js.assign. destruct (String.eqb key "__proto__"); [done|].
  by rewrite lookup_insert_ne.
Qed.

Lemma assign_proto {V : Type} (v : V) (own : gmap string V) :
  Js.assign "__proto__" v own = own.
Proof. reflexivity. Qed.

Lemma assign_plain {V : Type} (key : string) (v : V) (own : gmap string V) :
  key ≠ "__proto__" -> Js.assign key v own = <[key := v]> own.
Proof.
  intros Hne. unfold Js.assign. by apply String.eqb_neq in Hne as ->.
Qed.

(** No assignment gives a plain object an own property [__proto__]. *)
Lemma assign_no_proto {V : Type} (key : string) (v : V) (own : gmap string V) :
  own !! "__proto__" = None -> Js.assign key v own !! "__proto__" = None.
Proof.
  intros Hown. destruct (decide (key = "__proto__")) as [->|Hne]; [done|].
  by rewrite assign_other.
Qed.

Lemma register_global_mono key namespace st x :
  x ∈ globalMiddleware st -> x ∈ globalMiddleware (register key namespace st).
Proof.
  unfold register. destruct (negb _); simpl; [|done]. set_solver.
Qed.

Lemma register_named_other key namespace st k :
  k ≠ key ->
  namedMiddleware (register key namespace st) !! k = namedMiddleware st !! k.
Proof.
  intros Hne. unfold register. destruct (negb _); simpl; [done|].
  by rewrite assign_other.
Qed.

Lemma named_global_mono mapping st x :
  x ∈ globalMiddleware st -> x ∈ globalMiddleware (named mapping st).
Proof.
  revert st. induction mapping as [|[k v] rest IH]; intros st Hx; [done|].
  apply IH. by apply register_global_mono.
Qed.

Lemma named_named_other mapping st k :
  k ∉ mapping.*1 ->
  namedMiddleware (named mapping st) !! k = namedMiddleware st !! k.
Proof.
  revert st. induction mapping as [|[k' v] rest IH]; intros st Hk; [done|].
  simpl in Hk. apply not_elem_of_cons in Hk as [Hne Hk].
  unfold named in *. simpl. rewrite IH by done. by apply register_named_other.
Qed.

Lemma new_namedTruthy : namedTruthy new.
Proof. intros k ns Hk. simpl in Hk. by rewrite lookup_empty in Hk. Qed.

Lemma register_namedTruthy key namespace st :
  namedTruthy st -> namedTruthy (register key namespace st).
Proof.
  intros Hst k ns. unfold register.
  destruct (Js.truthy_opt namespace) eqn:Ht; simpl; [|apply Hst].
  destruct (decide (k = key)) as [->|Hne].
  - unfold Js.assign. destruct (String.eqb key "__proto__"); [apply Hst|].
    rewrite lookup_insert_eq. intros [= <-]. by destruct namespace.
  - rewrite assign_other by done. apply Hst.
Qed.

Lemma global_namedTruthy batch st :
  namedTruthy st -> namedTruthy (global batch st).
Proof. done. Qed.

Lemma named_namedTruthy mapping st :
  namedTruthy st -> namedTruthy (named mapping st).
Proof.
  revert st. induction mapping as [|[k v] rest IH]; intros st Hst; [done|].
  apply IH. by apply register_namedTruthy.
Qed.

(** On such a table a key is registered exactly when its base key is in
    the table. *)
Lemma registered_is_Some st key :
  namedTruthy st ->
  registered st key <-> is_Some (namedMiddleware st !! baseKey key).
Proof.
  intros Hst. split.
  - intros (ns & Hns & _). by exists ns.
  - intros [ns Hns]. exists ns. split; [done|]. by apply (Hst _ _ Hns).
Qed.

End MiddlewareStore.




(** C9, as stated, does not hold: registering the batch [["App/Cors"]]
    twice leaves two entries in the global list, registering it once leaves
    one. *)
Lemma global_twice_differs :
  Middleware.global ["App/Cors"] (Middleware.global ["App/Cors"] Middleware.new)
  ≠ Middleware.global ["App/Cors"] Middleware.new.
Proof.
  intros Heq. apply (f_equal Middleware.globalMiddleware) in Heq.
  vm_compute in Heq. discriminate Heq.
Qed.

(** C9, amended.  [global(batch)] removes the duplicates inside the batch
    only: it appends to the global list, left as it is, the distinct entries
    of the batch in the order of their first occurrence, whether or not they
    are in the list already, and does not touch the named table.  The
    entries appended are, for the empty batch, none, and for a batch that
    starts with [x], first [x] and then the entries appended for the rest of
    the batch other than [x].  Registering the same batch twice therefore
    appends those entries twice, and equals registering it once exactly when
    the batch is empty. *)
Theorem global_appends_distinct_entries (batch : list string) (st : Middleware.Store) :
  (exists added,
      Middleware.globalMiddleware (Middleware.global batch st)
      = Middleware.globalMiddleware st ++ added
      /\ Middleware.globalMiddleware (Middleware.global batch (Middleware.global batch st))
         = Middleware.globalMiddleware st ++ added ++ added
      /\ added = Js.uniq batch
      /\ NoDup added
      /\ (forall x, x ∈ added <-> x ∈ batch))
  /\ Js.uniq [] = []
  /\ (forall x rest, Js.uniq (x :: rest) = x :: filter (fun y => y ≠ x) (Js.uniq rest))
  /\ Middleware.namedMiddleware (Middleware.global batch st)
     = Middleware.namedMiddleware st
  /\ (Middleware.global batch (Middleware.global batch st) = Middleware.global batch st
      <-> batch = []).
Proof.
  split_and!; try done.
  - exists (Js.uniq batch). split_and!; try done.
    + simpl. by rewrite <- app_assoc.
    + apply uniq_NoDup.
    + apply uniq_elem_of.
  - apply uniq_cons.
  - split.
    + intros Heq. apply (f_equal Middleware.globalMiddleware) in Heq. simpl in Heq.
      apply (f_equal length) in Heq. rewrite !length_app in Heq.
      apply uniq_nil_inv, nil_length_inv. lia.
    + intros ->. unfold Middleware.global. simpl. by rewrite !app_nil_r.
Qed.

Lemma global_appends_distinct_entries_witness :
  Js.uniq ["a"; "b"; "a"; "c"; "b"] = ["a"; "b"; "c"]
  /\ Middleware.globalMiddleware
       (Middleware.global ["a"; "b"; "a"] (Middleware.global ["b"] Middleware.new))
     = ["b"; "a"; "b"].
Proof.
  split.
  - rewrite !(proj1 (proj2 (proj2 (global_appends_distinct_entries [] Middleware.new)))).
    rewrite (proj1 (proj2 (global_appends_distinct_entries [] Middleware.new))).
    reflexivity.
  - destruct (proj1 (global_appends_distinct_entries
                       ["a"; "b"; "a"] (Middleware.global ["b"] Middleware.new)))
      as (added & -> & _ & -> & _).
    reflexivity.
Defined.

(** ** Named middleware keys *)

Section NamedKeys.
Context `{NativeSource}.
Import Middleware.

Lemma fetchParams_keyParams key :
  fetchParams (Js.split ":" key !! 1) = keyParams key.
Proof.
  unfold keyParams. destruct (Js.split ":" key) as [|t0 [|text rest]]; try done.
  simpl. by destruct text.
Qed.

Lemma lookupNamed_registered st key ns :
  namedMiddleware st !! key = Some ns -> lookupNamed st key = Registered ns.
Proof. intros Hl. unfold lookupNamed. by rewrite Hl. Qed.

Lemma lookupNamed_inherited st key :
  namedMiddleware st !! key = None -> key ∈ Js.objectPrototypeKeys ->
  lookupNamed st key = Inherited key.
Proof.
  intros Hl Hin. unfold lookupNamed. rewrite Hl.
  by apply includes_true in Hin as ->.
Qed.

Lemma lookupNamed_missing st key :
  namedMiddleware st !! key = None -> key ∉ Js.objectPrototypeKeys ->
  lookupNamed st key = Missing.
Proof.
  intros Hl Hin. unfold lookupNamed. rewrite Hl.
  by apply includes_false in Hin as ->.
Qed.

Lemma formatStep_registered st structured key ns :
  namedMiddleware st !! baseKey key = Some ns ->
  Js.truthy ns = true ->
  formatStep st structured key = Js.Ok (setEntry ns (keyParams key) structured).
Proof.
  intros Hl Ht. unfold formatStep. rewrite (lookupNamed_registered _ _ ns Hl), Ht.
  by rewrite fetchParams_keyParams.
Qed.

Lemma formatStep_inherited st structured key :
  namedMiddleware st !! baseKey key = None ->
  baseKey key ∈ Js.objectPrototypeKeys ->
  formatStep st structured key
  = Js.Ok (setEntry (inheritedKey (baseKey key)) (keyParams key) structured).
Proof.
  intros Hl Hin. unfold formatStep. rewrite lookupNamed_inherited by done.
  by rewrite fetchParams_keyParams.
Qed.

Lemma formatStep_unregistered st structured key :
  namedMiddleware st !! baseKey key = None ->
  baseKey key ∉ Js.objectPrototypeKeys ->
  formatStep st structured key = Js.Throw (missingNamedMiddleware (baseKey key)).
Proof. intros Hl Hin. unfold formatStep. by rewrite lookupNamed_missing. Qed.

Lemma formatStep_found st structured key :
  found st key -> exists structured', formatStep st structured key = Js.Ok structured'.
Proof.
  intros [(ns & Hns & Ht)|[Hl Hin]].
  - rewrite (formatStep_registered _ _ _ ns) by done. by eexists.
  - rewrite formatStep_inherited by done. by eexists.
Qed.

Lemma reduceKeys_cons st key rest structured :
  reduceKeys st (key :: rest) structured
  = Js.bind (formatStep st structured key) (reduceKeys st rest).
Proof. reflexivity. Qed.

Lemma reduceKeys_throws st pre key post structured :
  Forall (found st) pre ->
  namedMiddleware st !! baseKey key = None ->
  baseKey key ∉ Js.objectPrototypeKeys ->
  reduceKeys st (pre ++ key :: post) structured
  = Js.Throw (missingNamedMiddleware (baseKey key)).
Proof.
  intros Hpre Hkey Hin. revert structured.
  induction Hpre as [|k pre Hk _ IH]; intros structured; simpl app;
    rewrite reduceKeys_cons.
  - by rewrite formatStep_unregistered.
  - destruct (formatStep_found st structured k Hk) as [structured' ->]. apply IH.
Qed.

Lemma reduceKeys_found st keys structured :
  Forall (found st) keys ->
  exists result, reduceKeys st keys structured = Js.Ok result.
Proof.
  intros Hall. revert structured.
  induction Hall as [|k rest Hk _ IH]; intros structured; [by eexists|].
  rewrite reduceKeys_cons.
  destruct (formatStep_found st structured k Hk) as [structured' ->]. apply IH.
Qed.

(** What is stored under one key of the object built, read through [view]:
    the own property of that name, or the prototype for [__proto__]. *)
Lemma reduceKeys_returns st keys structured
      (view : Structured -> option (list string)) (target : string) :
  (forall k v s, view (setEntry k v s) = if decide (k = target) then Some v else view s) ->
  Forall (registered st) keys ->
  exists result,
    reduceKeys st keys structured = Js.Ok result
    /\ (Forall (fun k => namedMiddleware st !! baseKey k ≠ Some target) keys ->
        view result = view structured)
    /\ (forall pre key post,
           keys = pre ++ key :: post ->
           namedMiddleware st !! baseKey key = Some target ->
           Forall (fun k => namedMiddleware st !! baseKey k ≠ Some target) post ->
           view result = Some (keyParams key)).
Proof.
  intros Hview Hreg. revert structured.
  induction Hreg as [|k rest (ns0 & Hns0 & Ht) _ IH]; intros structured.
  - exists structured. split_and!; [done|done|].
    intros pre key post Heq. by destruct pre.
  - rewrite reduceKeys_cons, (formatStep_registered _ _ _ ns0) by done. simpl.
    destruct (IH (setEntry ns0 (keyParams k) structured)) as (result & -> & Hkeep & Hlast).
    exists result. split_and!; [done| |].
    + intros Hall. apply Forall_cons in Hall as [Hk Hall].
      rewrite Hkeep, Hview by done. rewrite decide_False; [done|congruence].
    + intros pre key post Heq Hkey Hpost. destruct pre as [|k' pre].
      * simpl in Heq. injection Heq as -> ->.
        rewrite Hkeep, Hview by done. rewrite Hns0 in Hkey. injection Hkey as ->.
        by rewrite decide_True.
      * simpl in Heq. injection Heq as -> ->. by eapply Hlast.
Qed.

Lemma view_entry (ns : string) :
  ns ≠ "__proto__" ->
  forall k v s,
    entries (setEntry k v s) !! ns = if decide (k = ns) then Some v else entries s !! ns.
Proof.
  intros Hns k v s. unfold setEntry. destruct (String.eqb_spec k "__proto__") as [->|Hk].
  - simpl. by rewrite decide_False.
  - simpl. destruct (decide (k = ns)) as [->|Hne].
    + by rewrite lookup_insert_eq.
    + by rewrite lookup_insert_ne.
Qed.

Lemma view_prototype k v s :
  prototype (setEntry k v s) = if decide (k = "__proto__") then Some v else prototype s.
Proof.
  unfold setEntry. destruct (String.eqb_spec k "__proto__") as [->|Hk].
  - by rewrite decide_True.
  - by rewrite decide_False.
Qed.

Lemma setEntry_no_proto_entry k v s :
  entries s !! "__proto__" = None -> entries (setEntry k v s) !! "__proto__" = None.
Proof.
  intros Hs. unfold setEntry. destruct (String.eqb_spec k "__proto__") as [->|Hk]; [done|].
  simpl. by rewrite lookup_insert_ne.
Qed.

Lemma reduceKeys_no_proto_entry st keys structured result :
  entries structured !! "__proto__" = None ->
  reduceKeys st keys structured = Js.Ok result ->
  entries result !! "__proto__" = None.
Proof.
  revert structured. induction keys as [|k rest IH]; intros structured Hs.
  - by intros [= <-].
  - rewrite reduceKeys_cons. destruct (formatStep st structured k) as [s'|e] eqn:Hstep;
      [|done].
    simpl. apply IH. unfold formatStep in Hstep.
    destruct (lookupNamed st (baseKey k)) as [ns|p|]; [|injection Hstep as <-|done].
    + destruct (Js.truthy ns); [injection Hstep as <-|done].
      by apply setEntry_no_proto_entry.
    + by apply setEntry_no_proto_entry.
Qed.

Lemma last_occurrence {A : Type} (P : A -> Prop) `{!forall x, Decision (P x)}
      (l : list A) :
  Exists P l ->
  exists pre y post, l = pre ++ y :: post /\ P y /\ Forall (fun z => ~ P z) post.
Proof.
  induction l as [|a l IH]; intros Hex; [by apply Exists_nil in Hex|].
  destruct (decide (Exists P l)) as [Hl|Hl].
  - destruct (IH Hl) as (pre & y & post & -> & Hy & Hpost).
    by exists (a :: pre), y, post.
  - apply Exists_cons in Hex as [Ha|Hex]; [|done].
    exists [], a, l. split_and!; [done|done|].
    by apply not_Exists_Forall in Hl; [|apply _].
Qed.

End NamedKeys.




(** ** Array primitives *)

Lemma findIndexFrom_first {A : Type} (p : A -> bool) (from : Z) (pre : list A)
      (x : A) (post : list A) :
  Forall (fun y => p y = false) pre -> p x = true ->
  findIndexFrom p from (pre ++ x :: post) = (from + Z.of_nat (length pre))%Z.
Proof.
  intros Hpre Hx. revert from.
  induction Hpre as [|y pre Hy _ IH]; intros from; simpl.
  - rewrite Hx. lia.
  - rewrite Hy, IH. lia.
Qed.

Lemma findIndexFrom_none {A : Type} (p : A -> bool) (from : Z) (l : list A) :
  Forall (fun y => p y = false) l -> findIndexFrom p from l = (-1)%Z.
Proof.
  intros Hl. revert from. induction Hl as [|y l Hy _ IH]; intros from; simpl; [done|].
  by rewrite Hy, IH.
Qed.

Lemma splice_at {A : Type} (pre : list A) (x : A) (post : list A) :
  splice (Z.of_nat (length pre)) 1 (pre ++ x :: post) = pre ++ post.
Proof.
  unfold splice. rewrite length_app. simpl length.
  destruct (Z.ltb_spec (Z.of_nat (length pre)) 0); [lia|].
  rewrite Z.min_l by lia. rewrite Nat2Z.id.
  rewrite take_app_length. f_equal.
  rewrite drop_app_ge by lia.
  by replace (length pre + 1 - length pre) with 1 by lia.
Qed.

Lemma splice_minus_one {A : Type} (l : list A) :
  splice (-1) 1 l = removelast l.
Proof.
  destruct (decide (l = [])) as [->|Hne]; [done|].
  destruct (exists_last Hne) as (l' & x & ->).
  rewrite removelast_last. unfold splice. rewrite length_app. simpl.
  rewrite Z.max_l by lia.
  replace (Z.to_nat (Z.of_nat (length l' + 1) + -1)) with (length l') by lia.
  rewrite take_app_length, drop_app_ge by lia.
  replace (length l' + 1 - length l') with 1 by lia. simpl. by rewrite app_nil_r.
Qed.

(** ** The registry: removal by name *)

Section Removal.
Context `{PathToRegexp}.

(** When a record has the name, the first such record is deleted. *)
Lemma remove_first_named (n : string) (st : Route.Router) pre r post :
  Route.routes st = pre ++ r :: post ->
  Forall (fun r' => name r' ≠ n) pre ->
  name r = n ->
  Route.routes (Route.remove n st) = pre ++ post.
Proof.
  intros Hr Hpre Hn. unfold Route.remove, findIndex. simpl. rewrite Hr.
  rewrite (findIndexFrom_first _ _ pre r post).
  - apply splice_at.
  - eapply Forall_impl; [exact Hpre|]. intros r' Hne. by apply String.eqb_neq.
  - by apply String.eqb_eq.
Qed.

(** When no record has the name, [findIndex] gives [-1] and
    [splice(-1, 1)] deletes the last record. *)
Lemma remove_absent_name (n : string) (st : Route.Router) :
  Forall (fun r' => name r' ≠ n) (Route.routes st) ->
  Route.routes (Route.remove n st) = removelast (Route.routes st).
Proof.
  intros Hall. unfold Route.remove, findIndex. simpl.
  rewrite findIndexFrom_none; [apply splice_minus_one|].
  eapply Forall_impl; [exact Hall|]. intros r' Hne. by apply String.eqb_neq.
Qed.

End Removal.

(** C5.  The code at the failing input: on a registry that holds the two
    routes [/a] and [/b], [remove("missing")], a name that no record has,
    deletes the record of [/b]; the claim asks for the registry to be left
    as it is. *)
Theorem remove_absent_name_deletes_last (P : PathToRegexp) :
  map name (Route.routes
              (Route.remove "missing"
                 (Route.get "/b" HNull (Route.get "/a" HNull Route.new))))
  = ["/a"]
  /\ Route.remove "missing" (Route.get "/b" HNull (Route.get "/a" HNull Route.new))
     ≠ Route.get "/b" HNull (Route.get "/a" HNull Route.new).
Proof.
  split; [reflexivity|].
  intros Heq. apply (f_equal (fun st => length (Route.routes st))) in Heq.
  discriminate Heq.
Qed.

(** ** Resolution *)

Section Resolution.
Context `{PathToRegexp}.
Import RouterHelper.

Lemma visit_no_domain urlPath verb' (r : RouteRecord) :
  Js.truthy_opt (domain r) = false ->
  visit urlPath verb' r = Js.Ok (matchesUrl urlPath verb' r).
Proof. intros Hd. unfold visit. by rewrite Hd. Qed.

Lemma visit_domain urlPath verb' (r : RouteRecord) :
  Js.truthy_opt (domain r) = true ->
  visit urlPath verb' r
  = Js.Throw (Js.TypeError "route.makeRoutePattern is not a function").
Proof. intros Hd. unfold visit. by rewrite Hd. Qed.

(** The filter throws as soon as the registry holds a record with a
    domain, wherever the record is. *)
Lemma filterMatching_throws urlPath verb' index routes :
  Exists (fun r => Js.truthy_opt (domain r) = true) routes ->
  filterMatching urlPath verb' index routes
  = Js.Throw (Js.TypeError "route.makeRoutePattern is not a function").
Proof.
  revert index. induction routes as [|r rest IH]; intros index Hex.
  - by apply Exists_nil in Hex.
  - simpl. destruct (Js.truthy_opt (domain r)) eqn:Hd.
    + by rewrite visit_domain.
    + rewrite visit_no_domain by done. simpl.
      apply Exists_cons in Hex as [Hr|Hex]; [congruence|].
      by rewrite IH.
Qed.

Lemma filterMatching_returns urlPath verb' index routes :
  Forall (fun r => Js.truthy_opt (domain r) = false) routes ->
  exists kept, filterMatching urlPath verb' index routes = Js.Ok kept.
Proof.
  intros Hall. revert index.
  induction Hall as [|r rest Hr _ IH]; intros index; [by eexists|].
  simpl. rewrite visit_no_domain by done. simpl.
  destruct (IH (S index)) as [kept ->]. by eexists.
Qed.

Lemma filterMatching_none urlPath verb' index routes :
  Forall (fun r => Js.truthy_opt (domain r) = false) routes ->
  Forall (fun r => matchesUrl urlPath verb' r = false) routes ->
  filterMatching urlPath verb' index routes = Js.Ok [].
Proof.
  intros Hdom Hall. revert index.
  induction Hall as [|r rest Hr _ IH]; intros index; [done|].
  apply Forall_cons in Hdom as [Hd Hdom].
  simpl. rewrite visit_no_domain by done. simpl. by rewrite IH, Hr.
Qed.

Lemma filterMatching_first urlPath verb' index pre r post :
  Forall (fun r => Js.truthy_opt (domain r) = false) (pre ++ r :: post) ->
  Forall (fun r' => matchesUrl urlPath verb' r' = false) pre ->
  matchesUrl urlPath verb' r = true ->
  exists kept,
    filterMatching urlPath verb' index (pre ++ r :: post)
    = Js.Ok ((index + length pre, r) :: kept).
Proof.
  intros Hdom Hpre Hr. revert index.
  induction Hpre as [|r' pre Hr' _ IH]; intros index.
  - apply Forall_cons in Hdom as [Hd Hdom]. simpl.
    rewrite visit_no_domain by done. simpl.
    destruct (filterMatching_returns urlPath verb' (S index) post Hdom) as [kept ->].
    simpl. rewrite Hr, Nat.add_0_r. by eexists.
  - simpl in Hdom. apply Forall_cons in Hdom as [Hd Hdom]. simpl.
    rewrite visit_no_domain by done. simpl.
    destruct (IH Hdom (S index)) as [kept ->]. simpl. rewrite Hr'.
    exists kept. do 3 f_equal. lia.
Qed.

Lemma returnMatching_throws routes urlPath verb' :
  Exists (fun r => Js.truthy_opt (domain r) = true) routes ->
  returnMatchingRouteToUrl routes urlPath verb'
  = (Js.Throw (Js.TypeError "route.makeRoutePattern is not a function"), routes).
Proof.
  intros Hex. unfold returnMatchingRouteToUrl. by rewrite filterMatching_throws.
Qed.

Lemma returnMatching_none routes urlPath verb' :
  Forall (fun r => Js.truthy_opt (domain r) = false) routes ->
  Forall (fun r => matchesUrl urlPath verb' r = false) routes ->
  returnMatchingRouteToUrl routes urlPath verb' = (Js.Ok None, routes).
Proof.
  intros Hdom Hall. unfold returnMatchingRouteToUrl.
  by rewrite filterMatching_none.
Qed.

Lemma returnMatching_first pre r post urlPath verb' :
  Forall (fun r => Js.truthy_opt (domain r) = false) (pre ++ r :: post) ->
  Forall (fun r' => matchesUrl urlPath verb' r' = false) pre ->
  matchesUrl urlPath verb' r = true ->
  returnMatchingRouteToUrl (pre ++ r :: post) urlPath verb'
  = (Js.Ok (Some (set_matchedVerb (Some verb') r)),
     pre ++ set_matchedVerb (Some verb') r :: post).
Proof.
  intros Hdom Hpre Hr. unfold returnMatchingRouteToUrl.
  destruct (filterMatching_first urlPath verb' 0 pre r post Hdom Hpre Hr) as [kept ->].
  simpl. f_equal.
  replace (length pre) with (length pre + 0) by lia.
  by rewrite alter_app_r.
Qed.

(** A registry either has a first record that matches or has none. *)
Lemma first_match_or_none urlPath verb' (routes : list RouteRecord) :
  Forall (fun r => matchesUrl urlPath verb' r = false) routes
  \/ exists pre r post,
      routes = pre ++ r :: post
      /\ Forall (fun r' => matchesUrl urlPath verb' r' = false) pre
      /\ matchesUrl urlPath verb' r = true.
Proof.
  induction routes as [|r rest IH]; [by left|].
  destruct (matchesUrl urlPath verb' r) eqn:Hr.
  - right. by exists [], r, rest.
  - destruct IH as [Hall|(pre & r' & post & -> & Hpre & Hr')].
    + left. by constructor.
    + right. exists (r :: pre), r', post. split_and!; [done| |done].
      by constructor.
Qed.

(** A registry either holds a record with a domain or holds none. *)
Lemma domain_or_none (routes : list RouteRecord) :
  Exists (fun r => Js.truthy_opt (domain r) = true) routes
  \/ Forall (fun r => Js.truthy_opt (domain r) = false) routes.
Proof.
  induction routes as [|r rest [IH|IH]]; [by right| |].
  - left. by right.
  - destruct (Js.truthy_opt (domain r)) eqn:Hd; [left; by left|right; by constructor].
Qed.

Lemma assignParams_spec keys index groups ps0 :
  exists ps,
    assignParams keys index (Some groups) ps0 = Js.Ok ps
    /\ (forall k, k ∉ keys -> ps !! k = ps0 !! k)
    /\ ps !! "__proto__" = ps0 !! "__proto__"
    /\ (forall i k,
           keys !! i = Some k ->
           k ≠ "__proto__" ->
           (forall j, i < j -> keys !! j ≠ Some k) ->
           ps !! k = Some (default None (groups !! S (index + i)))).
Proof.
  revert index ps0. induction keys as [|key rest IH]; intros index ps0; simpl.
  - exists ps0. split_and!; [done|done|done|]. intros i k Hk. by destruct i.
  - destruct (IH (S index) (Js.assign key (default None (groups !! S index)) ps0))
      as (ps & -> & Hother & Hproto & Hat).
    exists ps. split_and!; [done| | |].
    + intros k Hk. apply not_elem_of_cons in Hk as [Hne Hk].
      rewrite Hother by done. by apply assign_other.
    + rewrite Hproto. destruct (decide (key = "__proto__")) as [->|Hne]; [done|].
      by apply assign_other.
    + intros [|i] k Hk Hkp Hlast; simpl in Hk.
      * injection Hk as ->. rewrite Hother.
        { rewrite assign_plain by done. rewrite lookup_insert_eq.
          by rewrite Nat.add_0_r. }
        intros (j & Hj)%list_elem_of_lookup. apply (Hlast (S j)); [lia|done].
      * rewrite (Hat i k Hk Hkp).
        { do 3 f_equal. lia. }
        intros j Hj. apply (Hlast (S j)). lia.
Qed.

Lemma returnRouteArguments_spec (r : RouteRecord) urlPath groups :
  regexp_exec (pattern r) urlPath = Some groups ->
  exists ps,
    returnRouteArguments r urlPath = Js.Ok (set_params (Some ps) r)
    /\ (forall k, k ∉ regexp_keys (pattern r) -> ps !! k = None)
    /\ ps !! "__proto__" = None
    /\ (forall i k,
           regexp_keys (pattern r) !! i = Some k ->
           k ≠ "__proto__" ->
           (forall j, i < j -> regexp_keys (pattern r) !! j ≠ Some k) ->
           ps !! k = Some (default None (groups !! S i))).
Proof.
  intros Hexec. unfold returnRouteArguments. rewrite Hexec.
  destruct (assignParams_spec (regexp_keys (pattern r)) 0 groups ∅)
    as (ps & -> & Hother & Hproto & Hat).
  exists ps. split_and!; [done| |done|done].
  intros k Hk. by rewrite Hother.
Qed.

Lemma resolve_throws (st : Route.Router) (urlPath verb' host : string) :
  Exists (fun r => Js.truthy_opt (domain r) = true) (Route.routes st) ->
  Route.resolve urlPath verb' host st
  = (Js.Throw (Js.TypeError "route.makeRoutePattern is not a function"),
     Route.set_routes (Route.routes st) st).
Proof.
  intros Hex. unfold Route.resolve. by rewrite returnMatching_throws.
Qed.

Lemma resolve_no_match (st : Route.Router) (urlPath verb' host : string) :
  Forall (fun r => Js.truthy_opt (domain r) = false) (Route.routes st) ->
  Forall (fun r => matchesUrl
                     (if Route.domains_match host st then host +:+ urlPath else urlPath)
                     verb' r = false) (Route.routes st) ->
  Route.resolve urlPath verb' host st
  = (Js.Ok None, Route.set_routes (Route.routes st) st).
Proof.
  intros Hdom Hall. unfold Route.resolve. by rewrite returnMatching_none.
Qed.

Lemma resolve_match (st : Route.Router) (urlPath verb' host : string) pre r post :
  let path := if Route.domains_match host st then host +:+ urlPath else urlPath in
  Forall (fun r => Js.truthy_opt (domain r) = false) (Route.routes st) ->
  Route.routes st = pre ++ r :: post ->
  Forall (fun r' => matchesUrl path verb' r' = false) pre ->
  matchesUrl path verb' r = true ->
  exists groups ps,
    regexp_exec (pattern r) path = Some groups
    /\ Route.resolve urlPath verb' host st
       = (Js.Ok (Some (mkRoute (route r) (verb r) (handler r) (pattern r)
                               (middlewares r) (name r) (group r) (domain r)
                               (Some verb') (Some ps))),
          Route.set_routes
            (pre ++ mkRoute (route r) (verb r) (handler r) (pattern r)
                            (middlewares r) (name r) (group r) (domain r)
                            (Some verb') (params r) :: post) st)
    /\ (forall k, k ∉ regexp_keys (pattern r) -> ps !! k = None)
    /\ ps !! "__proto__" = None
    /\ (forall i k,
           regexp_keys (pattern r) !! i = Some k ->
           k ≠ "__proto__" ->
           (forall j, i < j -> regexp_keys (pattern r) !! j ≠ Some k) ->
           ps !! k = Some (default None (groups !! S i))).
Proof.
  intros path Hdom Hr Hpre Hm.
  assert (exists groups, regexp_exec (pattern r) path = Some groups)
    as [groups Hexec].
  { unfold matchesUrl, regexp_test in Hm.
    destruct (regexp_exec (pattern r) path) as [groups|]; [by exists groups|done]. }
  destruct (returnRouteArguments_spec (set_matchedVerb (Some verb') r) path groups Hexec)
    as (ps & Hargs & Hother & Hproto & Hat).
  exists groups, ps. split_and!; [done| |done|done|done].
  unfold Route.resolve. fold path. rewrite Hr in Hdom |- *.
  rewrite returnMatching_first by done. by rewrite Hargs.
Qed.

Lemma resolve_first_eq (st : Route.Router) (urlPath verb' host : string) pre r post :
  let path := if Route.domains_match host st then host +:+ urlPath else urlPath in
  Forall (fun r => Js.truthy_opt (domain r) = false) (Route.routes st) ->
  Route.routes st = pre ++ r :: post ->
  Forall (fun r' => matchesUrl path verb' r' = false) pre ->
  matchesUrl path verb' r = true ->
  (Route.resolve urlPath verb' host st).1
  = Some <$> returnRouteArguments (set_matchedVerb (Some verb') r) path.
Proof.
  intros path Hdom Hr Hpre Hm. unfold Route.resolve. fold path.
  rewrite Hr in Hdom |- *. by rewrite returnMatching_first.
Qed.

Lemma set_routes_same (st : Route.Router) : Route.set_routes (Route.routes st) st = st.
Proof. by destruct st. Qed.

End Resolution.

(** C1.  The code at the failing inputs, and elsewhere.  The path that is
    matched is [urlPath], prefixed with [host] when the domain matcher
    matches [host].  On a registry in which no record has a domain,
    [resolve] does what the claim says: when no record matches, the result
    is the empty result; otherwise it is a copy of the first record, in
    registration order, whose pattern tests true on the path and whose verbs
    contain [verb], and the copy carries [matchedVerb = verb] and the
    [params] object, which gives to each key of the pattern, other than
    [__proto__], the capture group of its position.  On a registry that
    holds a record with a domain, wherever it is, [resolve] throws a
    TypeError for every path, verb and host, where the claim asks for the
    domain-qualified match and for no error. *)
Theorem resolve_first_match `{PathToRegexp} (st : Route.Router)
        (urlPath verb' host : string) :
  let path := if Route.domains_match host st then host +:+ urlPath else urlPath in
  let matches := fun r : RouteRecord =>
                   regexp_test (pattern r) path && Js.includes (verb r) verb' in
  (Exists (fun r => Js.truthy_opt (domain r) = true) (Route.routes st) ->
   exists message,
     (Route.resolve urlPath verb' host st).1 = Js.Throw (Js.TypeError message))
  /\ (Forall (fun r => Js.truthy_opt (domain r) = false) (Route.routes st) ->
      (Forall (fun r => matches r = false) (Route.routes st) ->
       (Route.resolve urlPath verb' host st).1 = Js.Ok None)
      /\ (forall pre r post,
             Route.routes st = pre ++ r :: post ->
             Forall (fun r' => matches r' = false) pre ->
             matches r = true ->
             exists groups ps,
               regexp_exec (pattern r) path = Some groups
               /\ (Route.resolve urlPath verb' host st).1
                  = Js.Ok (Some (mkRoute (route r) (verb r) (handler r) (pattern r)
                                         (middlewares r) (name r) (group r) (domain r)
                                         (Some verb') (Some ps)))
               /\ (forall k, k ∉ regexp_keys (pattern r) -> ps !! k = None)
               /\ ps !! "__proto__" = None
               /\ (forall i k,
                      regexp_keys (pattern r) !! i = Some k ->
                      k ≠ "__proto__" ->
                      (forall j, i < j -> regexp_keys (pattern r) !! j ≠ Some k) ->
                      ps !! k = Some (default None (groups !! S i))))).
Proof.
  intros path matches. split.
  - intros Hex. rewrite resolve_throws by done. by eexists.
  - intros Hdom. split.
    + intros Hall. by rewrite resolve_no_match.
    + intros pre r post Hr Hpre Hm.
      destruct (resolve_match st urlPath verb' host pre r post Hdom Hr Hpre Hm)
        as (groups & ps & Hexec & -> & Hrest).
      by exists groups, ps.
Qed.

Lemma resolve_first_match_witness :
  (exists message,
      (Route.resolve "/users" "GET" "admin.example.com" Examples.adminRoutes).1
      = Js.Throw (Js.TypeError message))
  /\ exists ps,
      (Route.resolve "/user/7" "GET" "localhost" Examples.userRoutes).1
      = Js.Ok (Some (mkRoute "/user/:id" ["GET"; "HEAD"] (HString "UserController.show")
                             (pathToRegexp "/user/:id") [] "/user/:id" None None
                             (Some "GET") (Some ps)))
      /\ ps !! "id" = Some (Some "7").
Proof.
  split.
  - apply (proj1 (resolve_first_match Examples.adminRoutes
                    "/users" "GET" "admin.example.com")).
    left. reflexivity.
  - destruct (proj2 (proj2 (resolve_first_match Examples.userRoutes
                              "/user/7" "GET" "localhost")
                       ltac:(repeat constructor))
                [RouterHelper.construct "/user/create" ["GET"; "HEAD"]
                                        (HString "UserController.create") None]
                (RouterHelper.construct "/user/:id" ["GET"; "HEAD"]
                                        (HString "UserController.show") None)
                []
                eq_refl ltac:(repeat constructor) eq_refl)
      as (groups & ps & Hexec & Hres & _ & _ & Hat).
    exists ps. split; [exact Hres|].
    injection Hexec as <-.
    apply (Hat 0 "id"); [reflexivity|discriminate|].
    intros [|j] Hj; [lia|]. discriminate.
Defined.

(** Registration order decides: [/user/create], registered first, answers
    its own path although [/user/:id] matches it too. *)
Example resolve_registration_order :
  (exists copy,
      (Route.resolve "/user/create" "GET" "localhost" Examples.userRoutes).1
      = Js.Ok (Some copy)
      /\ name copy = "/user/create")
  /\ RouterHelper.matchesUrl "/user/create" "GET"
       (RouterHelper.construct "/user/:id" ["GET"; "HEAD"] HNull None) = true.
Proof.
  split; [|reflexivity].
  exists (set_params (Some ∅)
            (set_matchedVerb (Some "GET")
               (RouterHelper.construct "/user/create" ["GET"; "HEAD"]
                                       (HString "UserController.create") None))).
  split; [reflexivity|reflexivity].
Qed.

(** C4, as stated, does not hold: resolving [/user/create] writes
    [matchedVerb] on the record of the registry that matches, before the
    copy is made. *)
Lemma resolve_writes_matchedVerb :
  Route.routes (Route.resolve "/user/create" "GET" "localhost" Examples.userRoutes).2
  ≠ Route.routes Examples.userRoutes
  /\ matchedVerb <$> Route.routes Examples.userRoutes = [None; None]
  /\ matchedVerb
       <$> Route.routes
             (Route.resolve "/user/create" "GET" "localhost" Examples.userRoutes).2
     = [Some "GET"; None].
Proof.
  split_and!; [|reflexivity|reflexivity].
  intros Heq. apply (f_equal (fmap (M := list) matchedVerb)) in Heq.
  vm_compute in Heq. discriminate Heq.
Qed.

(** C4, amended.  Resolution never adds, removes or reorders records, and
    leaves the template, verbs, handler, pattern object, middleware list,
    name, group, domain and params of every shared record as they are.  The
    one write on a shared record is [matchedVerb]: when a record is
    returned, the first record that matches has its [matchedVerb] set to the
    verb requested, and nothing else changes; when the result is empty or
    the call throws, as it does for a registry that holds a record with a
    domain, the registry is left as it is.  The extracted params are
    attached to the copy that is returned and never to a shared record. *)
Theorem resolve_frame `{PathToRegexp} (st : Route.Router)
        (urlPath verb' host : string) :
  let path := if Route.domains_match host st then host +:+ urlPath else urlPath in
  let matches := fun r : RouteRecord =>
                   regexp_test (pattern r) path && Js.includes (verb r) verb' in
  route <$> Route.routes (Route.resolve urlPath verb' host st).2
  = route <$> Route.routes st
  /\ verb <$> Route.routes (Route.resolve urlPath verb' host st).2
     = verb <$> Route.routes st
  /\ handler <$> Route.routes (Route.resolve urlPath verb' host st).2
     = handler <$> Route.routes st
  /\ pattern <$> Route.routes (Route.resolve urlPath verb' host st).2
     = pattern <$> Route.routes st
  /\ middlewares <$> Route.routes (Route.resolve urlPath verb' host st).2
     = middlewares <$> Route.routes st
  /\ name <$> Route.routes (Route.resolve urlPath verb' host st).2
     = name <$> Route.routes st
  /\ group <$> Route.routes (Route.resolve urlPath verb' host st).2
     = group <$> Route.routes st
  /\ domain <$> Route.routes (Route.resolve urlPath verb' host st).2
     = domain <$> Route.routes st
  /\ params <$> Route.routes (Route.resolve urlPath verb' host st).2
     = params <$> Route.routes st
  /\ Route.activeGroup (Route.resolve urlPath verb' host st).2 = Route.activeGroup st
  /\ Route.registeredDomains (Route.resolve urlPath verb' host st).2
     = Route.registeredDomains st
  /\ match (Route.resolve urlPath verb' host st).1 with
     | Js.Ok (Some copy) =>
         is_Some (params copy)
         /\ matchedVerb copy = Some verb'
         /\ exists pre r post,
             Route.routes st = pre ++ r :: post
             /\ Forall (fun r' => matches r' = false) pre
             /\ matches r = true
             /\ Route.routes (Route.resolve urlPath verb' host st).2
                = pre ++ mkRoute (route r) (verb r) (handler r) (pattern r)
                                 (middlewares r) (name r) (group r) (domain r)
                                 (Some verb') (params r) :: post
     | Js.Ok None => (Route.resolve urlPath verb' host st).2 = st
     | Js.Throw _ => (Route.resolve urlPath verb' host st).2 = st
     end.
Proof.
  intros path matches.
  destruct (domain_or_none (Route.routes st)) as [Hex|Hdom].
  { rewrite resolve_throws by done. simpl. by rewrite set_routes_same. }
  destruct (first_match_or_none path verb' (Route.routes st))
    as [Hall|(pre & r & post & Hr & Hpre & Hm)].
  { rewrite resolve_no_match by done. simpl. by rewrite set_routes_same. }
  destruct (resolve_match st urlPath verb' host pre r post Hdom Hr Hpre Hm)
    as (groups & ps & _ & -> & _).
  cbn [fst snd Route.routes Route.set_routes Route.activeGroup Route.registeredDomains].
  rewrite Hr, !fmap_app, !fmap_cons. simpl.
  split_and!; try done. by exists pre, r, post.
Qed.

(** ** Reverse url generation *)

Section ReverseUrl.
Context `{PathToRegexp}.

Lemma filter_named_first (n : string) (pre : list RouteRecord) r post :
  Forall (fun r' => name r' ≠ n) pre ->
  name r = n ->
  filter (fun r' => name r' = n) (pre ++ r :: post) !! 0 = Some r.
Proof.
  intros Hpre Hr. induction Hpre as [|r' pre Hr' _ IH]; simpl.
  - by rewrite filter_cons_True.
  - by rewrite filter_cons_False.
Qed.

Lemma filter_named_none (n : string) (routes : list RouteRecord) :
  Forall (fun r' => name r' ≠ n) routes ->
  filter (fun r' => name r' = n) routes = [].
Proof.
  intros Hall. induction Hall as [|r' l Hr' _ IH]; [done|].
  by rewrite filter_cons_False.
Qed.

Lemma url_named (st : Route.Router) (n : string) (values : gmap string string)
      pre r post :
  Route.routes st = pre ++ r :: post ->
  Forall (fun r' => name r' ≠ n) pre ->
  name r = n ->
  Route.url n values st
  = pathToRegexp_compile
      (if Js.truthy_opt (domain r)
       then default EmptyString (domain r) +:+ route r else route r) values.
Proof.
  intros Hr Hpre Hn. unfold Route.url.
  by rewrite Hr, filter_named_first.
Qed.

Lemma url_template (st : Route.Router) (n : string) (values : gmap string string) :
  Forall (fun r' => name r' ≠ n) (Route.routes st) ->
  Route.url n values st = pathToRegexp_compile n values.
Proof.
  intros Hall. unfold Route.url. by rewrite filter_named_none.
Qed.

End ReverseUrl.



(** ** Strings *)

Lemma append_nil_r (s : string) : s +:+ "" = s.
Proof.
  induction s as [|c s IH]; [done|].
  change (String c (s +:+ "") = String c s). by rewrite IH.
Qed.

Lemma append_assoc (a b c : string) : (a +:+ b) +:+ c = a +:+ (b +:+ c).
Proof.
  induction a as [|x a IH]; [done|].
  change (String x ((a +:+ b) +:+ c) = String x (a +:+ (b +:+ c))). by rewrite IH.
Qed.

Lemma append_cons (c : ascii) (a b : string) : String c a +:+ b = String c (a +:+ b).
Proof. reflexivity. Qed.

Lemma append_nil_l (s : string) : "" +:+ s = s.
Proof. reflexivity. Qed.

Lemma split_nonempty (sep : ascii) (s : string) :
  exists t ts, Js.split sep s = t :: ts.
Proof.
  induction s as [|c s (t & ts & IH)]; simpl; [by eexists _, _|].
  destruct (Ascii.eqb c sep); [by eexists _, _|]. rewrite IH. by eexists _, _.
Qed.

(** ** Resource patterns *)

Section ResourcePatterns.
Import Resource.

Lemma allWordChars_middle (a : string) (c : ascii) (b : string) :
  allWordChars (a +:+ String c b) = true -> Js.isWordChar c = true.
Proof.
  induction a as [|x a IH]; cbn.
  - by intros [? _]%andb_true_iff.
  - intros [_ ?]%andb_true_iff. by apply IH.
Qed.

Lemma isWordChar_dot : Js.isWordChar "." = false.
Proof. reflexivity. Qed.

Lemma replaceDotted_no_dot (s word t : string) :
  Js.split "." s = [t] -> replaceDotted word s = word +:+ s.
Proof.
  revert word t. induction s as [|c s IH]; intros word t Hs; simpl.
  - by rewrite append_nil_r.
  - simpl in Hs. destruct (Ascii.eqb c ".") eqn:Hc.
    + destruct (split_nonempty "." s) as (t' & ts & Hts). rewrite Hts in Hs.
      discriminate Hs.
    + destruct (split_nonempty "." s) as (t' & ts & Hts). rewrite Hts in Hs.
      injection Hs as _ ->.
      destruct (Js.isWordChar c).
      * rewrite (IH _ t') by done. by rewrite append_assoc.
      * by rewrite (IH _ t').
Qed.

Lemma split_no_dot_eq (s t : string) : Js.split "." s = [t] -> t = s.
Proof.
  revert t. induction s as [|c s IH]; intros t Hs; simpl in Hs.
  - by injection Hs.
  - destruct (split_nonempty "." s) as (t' & ts & Hts). rewrite Hts in Hs.
    destruct (Ascii.eqb c "."); [discriminate Hs|].
    injection Hs as <- ->. f_equal. by apply IH.
Qed.

Lemma replaceDotted_expand (s word : string) :
  Forall (fun seg => wordRun seg = true)
         (removelast (prependFirst word (Js.split "." s))) ->
  replaceDotted word s = expandSegments (prependFirst word (Js.split "." s)).
Proof.
  revert word. induction s as [|c s IH]; intros word Hsegs.
  - simpl. by rewrite append_nil_r.
  - destruct (split_nonempty "." s) as (t & ts & Hts).
    simpl in *. rewrite Hts in *.
    destruct (Ascii.eqb c ".") eqn:Hc.
    + apply Ascii.eqb_eq in Hc as ->. rewrite isWordChar_dot.
      simpl in Hsegs. rewrite append_nil_r in *.
      apply Forall_cons in Hsegs as [Hword Hsegs].
      apply andb_true_iff in Hword as [-> _].
      rewrite (IH EmptyString) by done. simpl.
      by rewrite !append_assoc.
    + destruct (Js.isWordChar c) eqn:Hw.
      * rewrite (IH (word +:+ String c "")); simpl; by rewrite append_assoc.
      * destruct ts as [|t' ts].
        -- simpl. rewrite (replaceDotted_no_dot s EmptyString t) by done.
           by rewrite (split_no_dot_eq s t).
        -- simpl in Hsegs. apply Forall_cons in Hsegs as [Hword _].
           apply andb_true_iff in Hword as [_ Hword].
           apply allWordChars_middle in Hword. congruence.
Qed.

(** On a base name whose segments before the last are non-empty runs of
    word characters, [_makePattern] is the expansion of the specification. *)
Lemma makePattern_nestedBase (base : string) :
  Forall (fun seg => wordRun seg = true) (removelast (Js.split "." base)) ->
  _makePattern base = nestedBase base.
Proof.
  intros Hsegs. unfold _makePattern, nestedBase. f_equal.
  destruct (split_nonempty "." base) as (t & ts & Hts).
  rewrite replaceDotted_expand; rewrite Hts in *; simpl; done.
Qed.

End ResourcePatterns.

Lemma findIndexFrom_range {A : Type} (p : A -> bool) (from : Z) (l : list A) :
  (0 <= from)%Z ->
  (Forall (fun y => p y = false) l /\ findIndexFrom p from l = (-1)%Z)
  \/ (Exists (fun y => p y = true) l /\ (from <= findIndexFrom p from l)%Z).
Proof.
  revert from. induction l as [|x l IH]; intros from Hfrom; simpl.
  - left. by split.
  - destruct (p x) eqn:Hx.
    + right. split; [by left|lia].
    + destruct (IH (from + 1)%Z) as [[Hall ->]|[Hex Hle]]; [lia| |].
      * left. split; [by constructor|done].
      * right. split; [by right|lia].
Qed.

Lemma indexOf_absent (l : list string) (x : string) :
  (indexOf l x <=? -1)%Z = negb (Js.includes l x).
Proof.
  unfold indexOf, findIndex, Js.includes.
  destruct (findIndexFrom_range (String.eqb x) 0 l) as [[Hall ->]|[Hex Hle]]; [lia| |].
  - replace (existsb (String.eqb x) l) with false; [done|].
    symmetry. apply not_true_is_false. intros (y & Hy & Hxy)%existsb_exists.
    apply list_elem_of_In in Hy. rewrite Forall_forall in Hall.
    rewrite (Hall y Hy) in Hxy. discriminate Hxy.
  - replace (existsb (String.eqb x) l) with true.
    + simpl. apply Z.leb_gt. lia.
    + symmetry. apply existsb_exists. apply Exists_exists in Hex as (y & Hy & Hxy).
      exists y. split; [by apply list_elem_of_In|done].
Qed.

Lemma indexOf_present (l : list string) (x : string) :
  (indexOf l x >? -1)%Z = Js.includes l x.
Proof.
  pose proof (indexOf_absent l x) as Habs.
  destruct (Js.includes l x); simpl in Habs.
  - apply Z.leb_gt in Habs. apply Z.gtb_lt. lia.
  - apply Z.leb_le in Habs. rewrite Z.gtb_ltb. apply Z.ltb_ge. lia.
Qed.

(** ** Resource generation *)

Section ResourceGeneration.
Context `{PathToRegexp}.
Import Resource.

Lemma startsWith_differ (s t : string) :
  Js.startsWith "/" s = true -> Js.startsWith "/" t = false -> s ≠ t.
Proof. intros Hs Ht ->. congruence. Qed.

Lemma slashed_startsWith (p : string) :
  Js.startsWith "/" (if Js.startsWith "/" p then p else "/" +:+ p) = true.
Proof. by destruct (Js.startsWith "/" p) eqn:Hp. Qed.

Lemma replaceDotted_nonempty (word s : string) :
  replaceDotted word s = "" -> word = "" /\ s = "".
Proof.
  revert word. induction s as [|c s IH]; intros word; simpl; [done|].
  destruct (Js.isWordChar c).
  - intros [Hw _]%IH. destruct word; [rewrite append_nil_l in Hw|rewrite append_cons in Hw];
      discriminate Hw.
  - destruct (Ascii.eqb c ".").
    + destruct word; simpl; [rewrite append_cons|rewrite !append_cons]; discriminate.
    + destruct word; [rewrite append_nil_l|rewrite append_cons]; discriminate.
Qed.

Lemma replaceDotted_slash (s : string) :
  replaceDotted "" (String "/" s) = String "/" (replaceDotted "" s).
Proof. simpl. by rewrite append_nil_l. Qed.

Lemma trimTrailingSlash_slash (s : string) :
  s ≠ "" -> trimTrailingSlash (String "/" s) = String "/" (trimTrailingSlash s).
Proof. intros Hs. simpl. by destruct s. Qed.

(** The path of a record of a resource is never the basename followed by a
    dot: where the basename has a character that is not a slash, or ends,
    the path still has a slash. *)
Lemma path_not_dotted_aux (b suffix item : string) :
  suffix = "" \/ Js.startsWith "/" suffix = true ->
  trimTrailingSlash (String "/" (replaceDotted "" b)) +:+ suffix ≠ b +:+ "." +:+ item.
Proof.
  intros Hsuffix. induction b as [|c b IH].
  - simpl. rewrite !append_nil_l, append_cons.
    destruct Hsuffix as [->|Hs]; [done|]. destruct suffix as [|c s]; [done|].
    simpl in Hs. apply Ascii.eqb_eq in Hs as ->. discriminate.
  - set (dotted := "." +:+ item) in *.
    destruct (Ascii.eqb_spec c "/") as [->|Hc].
    + rewrite replaceDotted_slash, trimTrailingSlash_slash by done.
      rewrite !append_cons. intros Heq. injection Heq as Heq. by apply IH.
    + rewrite trimTrailingSlash_slash.
      2:{ intros [_ Hr]%replaceDotted_nonempty. discriminate Hr. }
      rewrite !append_cons. intros Heq. injection Heq as Heq _. by apply Hc.
Qed.

Lemma path_not_dotted (base suffix item : string) :
  suffix = "" \/ Js.startsWith "/" suffix = true ->
  (if Js.startsWith "/" (_makePattern base +:+ suffix)
   then _makePattern base +:+ suffix
   else "/" +:+ (_makePattern base +:+ suffix))
  ≠ removeFirstSlash base +:+ "." +:+ item.
Proof.
  intros Hsuffix. destruct base as [|c b].
  - by apply startsWith_differ; [apply slashed_startsWith|].
  - destruct (Ascii.eqb_spec c "/") as [->|Hc].
    + simpl removeFirstSlash. unfold _makePattern. rewrite replaceDotted_slash.
      destruct b as [|c2 b2].
      * by apply startsWith_differ; [apply slashed_startsWith|].
      * rewrite trimTrailingSlash_slash.
        2:{ intros [_ Hr]%replaceDotted_nonempty. discriminate Hr. }
        rewrite append_cons. simpl Js.startsWith. cbv iota.
        rewrite <- append_cons, <- trimTrailingSlash_slash.
        2:{ intros [_ Hr]%replaceDotted_nonempty. discriminate Hr. }
        by apply path_not_dotted_aux.
    + apply startsWith_differ; [apply slashed_startsWith|].
      simpl removeFirstSlash. apply Ascii.eqb_neq in Hc as Hc'. rewrite Hc'.
      by rewrite append_cons.
Qed.

Lemma alter_fixed {A : Type} (f : A -> A) (i : nat) (l : list A) :
  (forall x, x ∈ l -> f x = x) -> alter f i l = l.
Proof.
  revert i. induction l as [|y l IH]; intros i Hf; [done|].
  destruct i as [|i]; simpl.
  - rewrite Hf; [done|by left].
  - f_equal. apply IH. intros x Hx. apply Hf. by right.
Qed.

Lemma not_transformed (res : Resource) (pairKeys : list string) (r : RouteRecord) :
  pathNamed res r -> Js.includes (_transformKeys res pairKeys) (name r) = false.
Proof.
  intros Hr. apply includes_false. unfold _transformKeys.
  intros (item & Heq & _)%list_elem_of_In%in_map_iff. by apply (Hr item).
Qed.

Lemma as_no_rename (pairs : string) (res : Resource) :
  Forall (pathNamed res) (records res) -> as_ pairs res = res.
Proof.
  intros Hall. unfold as_.
  assert (forall refs,
             fold_left (fun rs ref =>
                          alter (rename pairs (_transformKeys res (stringKeys pairs))) ref rs)
                       refs (records res)
             = records res) as ->.
  { intros refs. induction refs as [|ref refs IH]; [done|]. simpl.
    rewrite alter_fixed; [done|].
    intros r Hr. rewrite Forall_forall in Hall. unfold rename.
    by rewrite indexOf_present, not_transformed by by apply Hall. }
  by destruct res.
Qed.

Lemma registerRoute_spec (verb' : list string) (path h n : string) (res : Resource) :
  let r := RouterHelper.construct path verb' (HString (h +:+ "." +:+ n)) None in
  Forall (pathNamed res) (records res) ->
  pathNamed res r ->
  _registerRoute verb' path h n res
  = (length (records res),
     mkResource (r_pattern res) (r_handler res) (records res ++ [r])
                (r_routes res ++ [length (records res); length (records res)])
                (basename res)).
Proof.
  intros r Hall Hr. unfold _registerRoute. fold r. cbv zeta.
  rewrite as_no_rename.
  2:{ simpl. apply Forall_app. split; [done|]. by constructor. }
  cbn [r_routes r_pattern r_handler records basename set_routes].
  rewrite last_snoc. simpl. by rewrite <- app_assoc.
Qed.

Lemma actionRecord_pathNamed (base controller : string) (res : Resource)
      (a : string * list string * string) :
  basename res = removeFirstSlash base ->
  a.2 = "" \/ Js.startsWith "/" a.2 = true ->
  pathNamed res (actionRecord base controller a).
Proof.
  intros Hb Ha item. rewrite Hb. simpl. by apply path_not_dotted.
Qed.

Lemma actions_suffixes :
  Forall (fun a : string * list string * string =>
            a.2 = "" \/ Js.startsWith "/" a.2 = true) actions.
Proof. repeat constructor; by (left + right). Qed.

Lemma actionRecords_pathNamed (base controller : string) (res : Resource) :
  basename res = removeFirstSlash base ->
  Forall (pathNamed res) (map (actionRecord base controller) actions).
Proof.
  intros Hb. apply Forall_forall. intros r (a & <- & Ha)%list_elem_of_In%in_map_iff.
  apply actionRecord_pathNamed; [done|].
  pose proof actions_suffixes as Hs. rewrite Forall_forall in Hs.
  by apply Hs, list_elem_of_In.
Qed.

Lemma construct_actionRecord (base controller action : string) (verbs : list string)
      (suffix : string) :
  RouterHelper.construct (_makePattern base +:+ suffix) verbs
                         (HString (controller +:+ "." +:+ action)) None
  = actionRecord base controller (action, verbs, suffix).
Proof. reflexivity. Qed.

(** One step of [_buildRoutes]: the record of the next action is appended,
    and its reference is pushed twice. *)
Lemma registerRoute_action (base controller : string)
      (done : list (string * list string * string))
      (action : string) (verbs : list string) (suffix : string) (refs : list nat) :
  suffix = "" \/ Js.startsWith "/" suffix = true ->
  Forall (fun a' : string * list string * string =>
            a'.2 = "" \/ Js.startsWith "/" a'.2 = true) done ->
  (_registerRoute verbs (_makePattern base +:+ suffix) controller action
     (mkResource (_makePattern base) controller (map (actionRecord base controller) done)
                 refs (removeFirstSlash base))).2
  = mkResource (_makePattern base) controller
               (map (actionRecord base controller) (done ++ [(action, verbs, suffix)]))
               (refs ++ [length done; length done]) (removeFirstSlash base).
Proof.
  intros Ha Hdone. rewrite registerRoute_spec.
  - cbn [snd records r_routes r_pattern r_handler basename].
    by rewrite construct_actionRecord, length_map, map_app.
  - cbn [records]. apply Forall_forall.
    intros r (a' & <- & Ha')%list_elem_of_In%in_map_iff.
    apply actionRecord_pathNamed; [done|].
    rewrite Forall_forall in Hdone. by apply Hdone, list_elem_of_In.
  - rewrite construct_actionRecord.
    by apply actionRecord_pathNamed.
Qed.

Lemma registerRoute_bare_action (base controller : string)
      (done : list (string * list string * string))
      (action : string) (verbs : list string) (refs : list nat) :
  Forall (fun a' : string * list string * string =>
            a'.2 = "" \/ Js.startsWith "/" a'.2 = true) done ->
  (_registerRoute verbs (_makePattern base) controller action
     (mkResource (_makePattern base) controller (map (actionRecord base controller) done)
                 refs (removeFirstSlash base))).2
  = mkResource (_makePattern base) controller
               (map (actionRecord base controller) (done ++ [(action, verbs, "")]))
               (refs ++ [length done; length done]) (removeFirstSlash base).
Proof.
  intros Hdone.
  pose proof (registerRoute_action base controller done action verbs "" refs
                                   (or_introl eq_refl) Hdone) as Hs.
  by rewrite append_nil_r in Hs.
Qed.

Lemma buildRoutes_spec (base controller : string) :
  _buildRoutes (mkResource (_makePattern base) controller [] [] (removeFirstSlash base))
  = mkResource (_makePattern base) controller
               (map (actionRecord base controller) actions)
               [0; 0; 1; 1; 2; 2; 3; 3; 4; 4; 5; 5; 6; 6]
               (removeFirstSlash base).
Proof.
  unfold _buildRoutes. cbn [r_pattern r_handler].
  change (@nil RouteRecord) with (map (actionRecord base controller) []).
  rewrite registerRoute_bare_action; [|by repeat constructor].
  rewrite registerRoute_action; [|by right|repeat constructor; by (left + right)].
  rewrite registerRoute_bare_action; [|repeat constructor; by (left + right)].
  rewrite registerRoute_action; [|by right|repeat constructor; by (left + right)].
  rewrite registerRoute_action; [|by right|repeat constructor; by (left + right)].
  rewrite registerRoute_action; [|by right|repeat constructor; by (left + right)].
  rewrite registerRoute_action; [|by right|repeat constructor; by (left + right)].
  reflexivity.
Qed.

Lemma new_spec (base controller : string) :
  base ≠ "/" ->
  new base (HString controller)
  = Js.Ok (mkResource (_makePattern base) controller
                      (map (actionRecord base controller) actions)
                      [0; 0; 1; 1; 2; 2; 3; 3; 4; 4; 5; 5; 6; 6]
                      (removeFirstSlash base)).
Proof.
  intros Hne. unfold new. apply String.eqb_neq in Hne as ->.
  by rewrite buildRoutes_spec.
Qed.

Lemma new_inv (base controller : string) (res : Resource) :
  new base (HString controller) = Js.Ok res ->
  base ≠ "/"
  /\ res = mkResource (_makePattern base) controller
                      (map (actionRecord base controller) actions)
                      [0; 0; 1; 1; 2; 2; 3; 3; 4; 4; 5; 5; 6; 6]
                      (removeFirstSlash base).
Proof.
  intros Hnew. destruct (decide (base = "/")) as [->|Hne]; [discriminate Hnew|].
  rewrite new_spec in Hnew by done. by injection Hnew as <-.
Qed.

End ResourceGeneration.

(** C3.  The code at the failing input, and at every other one.  A
    resource is a router of its own: for every base name other than [/] and
    every string controller, [Route.resource] leaves the registry as it is,
    where the claim asks for seven records appended to it.  The seven
    records, for index, create, store, show, edit, update and destroy in
    that order, with the verbs and the paths of the claim (each path with a
    leading slash), are built in the resource, whose own array refers to
    each of them twice; the handler of a record is [controller.action], and
    its name is its path, where the claim asks for [basename.action].  For
    the base name [/] the constructor throws a TypeError. *)
Theorem resource_routes_stay_local `{PathToRegexp}
        (base controller : string) (st : Route.Router) :
  (base ≠ "/" ->
   exists res,
     Registry.resource base (HString controller) st = (Js.Ok res, st)
     /\ Resource.records res
        = map (fun a : string * list string * string =>
                 let path := Resource._makePattern base +:+ a.2 in
                 let path := if Js.startsWith "/" path then path else "/" +:+ path in
                 mkRoute path a.1.2 (HString (controller +:+ "." +:+ a.1.1))
                         (pathToRegexp path) [] path None None None None)
              Resource.actions
     /\ Resource.r_routes res = [0; 0; 1; 1; 2; 2; 3; 3; 4; 4; 5; 5; 6; 6]
     /\ Resource.r_pattern res = Resource._makePattern base
     /\ Resource.r_handler res = controller
     /\ Resource.basename res = Resource.removeFirstSlash base
     /\ (Forall (fun seg => Resource.wordRun seg = true)
                (removelast (Js.split "." base)) ->
         Resource._makePattern base = Resource.nestedBase base))
  /\ exists message,
      Registry.resource "/" (HString controller) st
      = (Js.Throw (Js.TypeError message), st).
Proof.
  split.
  - intros Hne. eexists. unfold Registry.resource. rewrite new_spec by done.
    split; [reflexivity|]. split_and!; try reflexivity. apply makePattern_nestedBase.
  - by eexists.
Qed.

Lemma resource_routes_stay_local_witness :
  exists res,
    Registry.resource "post" (HString "PostController")
                      (Route.get "/home" HNull Route.new)
    = (Js.Ok res, Route.get "/home" HNull Route.new)
    /\ map (fun r => (name r, route r, handler r)) (Resource.records res)
       = [ ("/post", "/post", HString "PostController.index");
           ("/post/create", "/post/create", HString "PostController.create");
           ("/post", "/post", HString "PostController.store");
           ("/post/:id", "/post/:id", HString "PostController.show");
           ("/post/:id/edit", "/post/:id/edit", HString "PostController.edit");
           ("/post/:id", "/post/:id", HString "PostController.update");
           ("/post/:id", "/post/:id", HString "PostController.destroy") ]
    /\ Resource.r_routes res = [0; 0; 1; 1; 2; 2; 3; 3; 4; 4; 5; 5; 6; 6].
Proof.
  destruct (proj1 (resource_routes_stay_local "post" "PostController"
                     (Route.get "/home" HNull Route.new)))
    as (res & Hres & Hrecords & Hroutes & _); [discriminate|].
  exists res. split; [exact Hres|]. rewrite Hrecords, Hroutes. split; reflexivity.
Defined.

(** The paths built for the nested resource [post.comment]. *)
Example resource_nested_routes :
  Js.bind (Resource.new "post.comment" (HString "CommentController"))
          (fun res => Js.Ok (map route (Resource.records res)))
  = Js.Ok [ "/post/:post_id/comment"; "/post/:post_id/comment/create";
            "/post/:post_id/comment"; "/post/:post_id/comment/:id";
            "/post/:post_id/comment/:id/edit"; "/post/:post_id/comment/:id";
            "/post/:post_id/comment/:id" ].
Proof. vm_compute. reflexivity. Qed.

(** ** Filtering a resource *)

Section ResourceFilter.
Context `{PathToRegexp}.
Import Resource.

Lemma findIndexFrom_bounds {A : Type} (p : A -> bool) (from : Z) (l : list A) :
  findIndexFrom p from l = (-1)%Z
  \/ (from <= findIndexFrom p from l < from + Z.of_nat (length l))%Z.
Proof.
  revert from. induction l as [|x l IH]; intros from; simpl; [by left|].
  destruct (p x); [right; lia|].
  destruct (IH (from + 1)%Z) as [->|Hb]; [by left|right; lia].
Qed.

(** [splice(index, 1)] with the index that [findIndex] gives deletes one
    element of an array that is not empty: the one found, or the last. *)
Lemma splice_found_length {A : Type} (p : A -> bool) (l : list A) :
  l ≠ [] -> length (splice (findIndex p l) 1 l) = length l - 1.
Proof.
  intros Hne. assert (0 < length l) by (destruct l; [done|simpl; lia]).
  unfold splice, findIndex.
  destruct (findIndexFrom_bounds p 0 l) as [->|Hb].
  - simpl. rewrite length_app, length_take, length_drop. lia.
  - destruct (Z.ltb_spec (findIndexFrom p 0 l) 0); [lia|].
    rewrite length_app, length_take, length_drop. lia.
Qed.

Lemma remove_length (n : string) (res : Resource) :
  r_routes res ≠ [] ->
  length (r_routes (remove n res)) = length (r_routes res) - 1.
Proof. intros Hne. unfold remove. simpl. by apply splice_found_length. Qed.

Lemma lookup_deref (res : Resource) (index ref : nat) (r : RouteRecord) :
  r_routes res !! index ≫= (fun ref => (fun r => (ref, r)) <$> deref res ref)
  = Some (ref, r) ->
  r_routes res !! index = Some ref /\ records res !! ref = Some r.
Proof.
  destruct (r_routes res !! index) as [ref'|]; simpl; [|done].
  unfold deref. destruct (records res !! ref') as [r'|] eqn:Hr; simpl; [|done].
  intros Heq. injection Heq as -> ->. done.
Qed.

(** When the predicate removes every record it visits, the loop runs past
    the end of the array it is shrinking. *)
Lemma filterLoop_throws (dropped : string -> bool) (steps index : nat) (res : Resource)
      (kept : list nat) :
  Forall (fun r => dropped (name r) = true) (records res) ->
  length (r_routes res) = steps ->
  1 <= index -> 1 <= steps ->
  exists message,
    (filterLoop dropped steps index res kept).1 = Js.Throw (Js.TypeError message).
Proof.
  revert index res. induction steps as [|steps IH]; intros index res Hall Hlen Hi Hs; [lia|].
  simpl.
  destruct (r_routes res !! index ≫= (fun ref => (fun r => (ref, r)) <$> deref res ref))
    as [[ref r]|] eqn:Hlook; [|by eexists].
  apply lookup_deref in Hlook as [Href Hr].
  rewrite Forall_forall in Hall.
  rewrite (Hall r) by by eapply list_elem_of_lookup_2.
  apply lookup_lt_Some in Href as Hlt.
  apply IH.
  - by apply Forall_forall.
  - rewrite remove_length; [lia|]. intros Hnil. rewrite Hnil in Hlt. simpl in Hlt. lia.
  - lia.
  - lia.
Qed.

Lemma filterRoutes_throws (dropped : string -> bool) (res : Resource) :
  Forall (fun r => dropped (name r) = true) (records res) ->
  2 <= length (r_routes res) ->
  exists message, (filterRoutes dropped res).1 = Js.Throw (Js.TypeError message).
Proof.
  intros Hall Hlen.
  assert (exists message,
             (filterLoop dropped (length (r_routes res)) 0 res []).1
             = Js.Throw (Js.TypeError message)) as [message Hloop].
  { destruct (length (r_routes res)) as [|steps] eqn:Hsteps; [lia|]. simpl.
    destruct (r_routes res !! 0 ≫= (fun ref => (fun r => (ref, r)) <$> deref res ref))
      as [[ref r]|] eqn:Hlook; [|by eexists].
    apply lookup_deref in Hlook as [Href Hr].
    rewrite Forall_forall in Hall.
    rewrite (Hall r) by by eapply list_elem_of_lookup_2.
    apply filterLoop_throws; [by apply Forall_forall| |lia|lia].
    rewrite remove_length; [lia|]. intros Hnil. rewrite Hnil in Hsteps. done. }
  exists message. unfold filterRoutes.
  destruct (filterLoop dropped (length (r_routes res)) 0 res []) as [result res'].
  simpl in Hloop. by subst.
Qed.

(** When the predicate keeps every record, the loop keeps every reference
    and removes nothing. *)
Lemma filterLoop_keeps (dropped : string -> bool) (steps index : nat) (res : Resource)
      (kept : list nat) :
  Forall (fun r => dropped (name r) = false) (records res) ->
  Forall (fun ref => is_Some (deref res ref)) (r_routes res) ->
  steps = length (r_routes res) - index ->
  filterLoop dropped steps index res kept
  = (Js.Ok (kept ++ drop index (r_routes res)), res).
Proof.
  intros Hall Hrefs. revert index kept.
  induction steps as [|steps IH]; intros index kept Hsteps.
  - simpl. rewrite drop_ge by lia. by rewrite app_nil_r.
  - simpl.
    destruct (lookup_lt_is_Some_2 (r_routes res) index) as [ref Href]; [lia|].
    rewrite Forall_forall in Hrefs.
    destruct (Hrefs ref) as [r Hr]; [by eapply list_elem_of_lookup_2|].
    rewrite Href. simpl. rewrite Hr. simpl.
    rewrite Forall_forall in Hall.
    rewrite (Hall r) by by eapply list_elem_of_lookup_2.
    rewrite IH by lia.
    by rewrite <- app_assoc, (drop_S _ _ _ Href).
Qed.

Lemma filterRoutes_keeps (dropped : string -> bool) (res : Resource) :
  Forall (fun r => dropped (name r) = false) (records res) ->
  Forall (fun ref => is_Some (deref res ref)) (r_routes res) ->
  filterRoutes dropped res = (Js.Ok tt, res).
Proof.
  intros Hall Hrefs. unfold filterRoutes.
  rewrite filterLoop_keeps by (done || lia). simpl. by destruct res.
Qed.

End ResourceFilter.

(** C6.  The code at the failing input, and at every other one.  On the
    resource generated for any base name and controller, and for every
    list S of actions, [only(S)] throws a TypeError: the names of the
    records are their paths, so none is named by S, and the predicate
    removes every record it visits, from the resource's own array, while
    the filter walks that array.  [except(S)] removes no record and leaves
    the resource as it is.  The claim asks for [only(S)] to keep the routes
    named by S and for [except(S)] to keep the others. *)
Theorem only_throws_except_keeps_all `{PathToRegexp} (base controller : string)
        (S : list string) (res : Resource.Resource) :
  Resource.new base (HString controller) = Js.Ok res ->
  (exists message, (Resource.only S res).1 = Js.Throw (Js.TypeError message))
  /\ Resource.except S res = (Js.Ok tt, res).
Proof.
  intros [Hne ->]%new_inv.
  set (res := Resource.mkResource _ _ _ _ _).
  assert (Forall (Resource.pathNamed res) (Resource.records res)) as Hnamed
      by by apply actionRecords_pathNamed.
  split.
  - apply filterRoutes_throws; [|simpl; lia].
    eapply Forall_impl; [exact Hnamed|]. intros r Hr.
    by rewrite indexOf_absent, not_transformed.
  - apply filterRoutes_keeps.
    + eapply Forall_impl; [exact Hnamed|]. intros r Hr.
      by rewrite indexOf_present, not_transformed.
    + repeat constructor; by eexists.
Qed.

Lemma only_throws_except_keeps_all_witness :
  exists res,
    Resource.new "post" (HString "PostController") = Js.Ok res
    /\ (exists message,
           (Resource.only ["index"; "show"] res).1 = Js.Throw (Js.TypeError message))
    /\ Resource.except ["index"; "show"] res = (Js.Ok tt, res)
    /\ length (Resource.r_routes res) = 14.
Proof.
  eexists. split; [reflexivity|].
  destruct (only_throws_except_keeps_all "post" "PostController" ["index"; "show"] _
                                         eq_refl) as [Honly Hexcept].
  split; [exact Honly|]. split; [exact Hexcept|reflexivity].
Defined.

(** ** Composition *)

Section Composition.
Context {Request Response Instance Value Event : Type}.
Variable methodOf :
  Instance -> string -> option (Compose.MiddlewareFn Request Response Instance Value Event).
Variables (request : Request) (response : Response).

Local Abbreviation compose := (Compose.compose methodOf).
Local Abbreviation composeEntry := (Compose.composeEntry methodOf).

(** The generator built by calling the method of an entry on [next]. *)
Lemma compose_cons e l next :
  compose (e :: l) request response next
  = Compose.wrap request response (composeEntry e) (compose l request response next).
Proof. reflexivity. Qed.

Lemma compose_snoc l e next method :
  Compose.c_method (composeEntry e) = Some method ->
  compose (l ++ [e]) request response next
  = compose l request response
            (Some (method (Compose.c_instance (composeEntry e)) request response
                          (default Compose.noop next)
                          (Compose.c_parameters (composeEntry e)))).
Proof.
  intros Hm. unfold Compose.compose. rewrite map_app, foldr_app. simpl.
  by rewrite Hm.
Qed.

Lemma compose_resolves l next :
  Forall (Compose.resolves methodOf) l ->
  exists chain, compose l request response next = Js.Ok chain.
Proof.
  induction 1 as [|e l [method Hm] _ (chain & IH)]; [by eexists|].
  rewrite compose_cons, IH. simpl. rewrite Hm. by eexists.
Qed.

Lemma compose_around (ms : list ((Request -> Response -> list string -> Event)
                                 * Event * list string))
      (terminal : Compose.Generator Value Event) :
  exists chain,
    compose (map (fun m => Compose.Obj None
                              (Compose.MethodFunction (Compose.around m.1.1 m.1.2))
                              m.2) ms)
            request response (Some terminal)
    = Js.Ok chain
    /\ forall log,
        chain log
        = ((terminal (log ++ map (fun m => m.1.1 request response m.2) ms)).1,
           (terminal (log ++ map (fun m => m.1.1 request response m.2) ms)).2
           ++ rev (map (fun m => m.1.2) ms)).
Proof.
  induction ms as [|m ms (chain & IH & Hrun)].
  - exists terminal. split; [done|]. intros log. simpl.
    rewrite !app_nil_r. by destruct (terminal log).
  - simpl map. rewrite compose_cons, IH. simpl. eexists. split; [done|].
    intros log. unfold Compose.around. rewrite Hrun.
    rewrite <- app_assoc. simpl. by rewrite <- app_assoc.
Qed.

Lemma compose_short_circuit l1 e l2 l2' next next' method :
  Compose.c_method (composeEntry e) = Some method ->
  Compose.ignoresNext method ->
  Forall (Compose.resolves methodOf) l2 ->
  Forall (Compose.resolves methodOf) l2' ->
  compose (l1 ++ e :: l2) request response next
  = compose (l1 ++ e :: l2') request response next'.
Proof.
  intros Hm Hign Hl2 Hl2'.
  destruct (compose_resolves l2 next Hl2) as (inner & Hinner).
  destruct (compose_resolves l2' next' Hl2') as (inner' & Hinner').
  unfold Compose.compose in *. rewrite !map_app, !foldr_app. simpl.
  rewrite Hinner, Hinner'. simpl. rewrite Hm.
  by rewrite (Hign _ _ _ inner inner').
Qed.

End Composition.

(** C2.  [compose] builds the chain in reverse list order: the last
    middleware of the list wraps the terminal continuation first and the
    first one is outermost.  Each middleware is called with the shared
    request and response, the next step of the chain, and its own
    parameters after those: a function is called without a receiver and
    without parameters, an object [{ method, parameters }] without an
    instance is called through its [method] without a receiver, and an
    object with an instance is called through the method of that name of
    the instance, on the instance.  When every middleware runs its next
    step, the calls are observed in list order, then the terminal
    continuation, then the code that follows each next in reverse list
    order.  A middleware that never uses next cuts the chain: what follows
    it in the list, and the terminal continuation, no longer matter. *)
Theorem compose_onion_order {Request Response Instance Value Event : Type}
        (methodOf : Instance -> string
                    -> option (Compose.MiddlewareFn Request Response Instance Value Event))
        (request : Request) (response : Response) :
  let called :=
    fun (e : Compose.Entry Request Response Instance Value Event)
        (method : Compose.MiddlewareFn Request Response Instance Value Event)
        (this : option Instance) (parameters : list string) =>
      (e = Compose.Fn method /\ this = None /\ parameters = [])
      \/ (e = Compose.Obj None (Compose.MethodFunction method) parameters /\ this = None)
      \/ (exists instance n,
             e = Compose.Obj (Some instance) (Compose.MethodName n) parameters
             /\ methodOf instance n = Some method /\ this = Some instance) in
  (forall next,
      Compose.compose methodOf [] request response next
      = Js.Ok (default Compose.noop next))
  /\ (forall e method this parameters l next,
      called e method this parameters ->
      Compose.compose methodOf (e :: l) request response next
      = Js.bind (Compose.compose methodOf l request response next)
                (fun inner => Js.Ok (method this request response inner parameters)))
  /\ (forall l e method this parameters next,
      called e method this parameters ->
      Compose.compose methodOf (l ++ [e]) request response next
      = Compose.compose methodOf l request response
          (Some (method this request response (default Compose.noop next) parameters)))
  /\ (forall (l : list (Compose.Entry Request Response Instance Value Event))
             (ms : list ((Request -> Response -> list string -> Event)
                         * Event * list string))
             (terminal : Compose.Generator Value Event),
      Forall2 (fun e m => exists this, called e (Compose.around m.1.1 m.1.2) this m.2) l ms ->
      exists chain,
        Compose.compose methodOf l request response (Some terminal) = Js.Ok chain
        /\ forall log,
            chain log
            = ((terminal (log ++ map (fun m => m.1.1 request response m.2) ms)).1,
               (terminal (log ++ map (fun m => m.1.1 request response m.2) ms)).2
               ++ rev (map (fun m => m.1.2) ms)))
  /\ (forall l1 e l2 next method this parameters,
      called e method this parameters ->
      (forall next1 next2,
          method this request response next1 parameters
          = method this request response next2 parameters) ->
      Forall (Compose.resolves methodOf) l2 ->
      Compose.compose methodOf (l1 ++ e :: l2) request response next
      = Compose.compose methodOf l1 request response
          (Some (method this request response Compose.noop parameters))).
Proof.
  intros called.
  assert (forall e method this parameters,
             called e method this parameters ->
             Compose.composeEntry methodOf e
             = Compose.mkComposed _ _ _ _ _ this (Some method) parameters) as Hentry.
  { intros e method this parameters
           [(-> & -> & ->)|[(-> & ->)|(instance & n & -> & Hm & ->)]]; simpl;
      unfold Compose._composeFunction, Compose._composeObject; by rewrite ?Hm. }
  assert (forall e method this parameters l next,
             called e method this parameters ->
             Compose.compose methodOf (e :: l) request response next
             = Js.bind (Compose.compose methodOf l request response next)
                       (fun inner => Js.Ok (method this request response inner parameters)))
    as Hcons.
  { intros e method this parameters l next Hc.
    rewrite compose_cons, (Hentry _ _ _ _ Hc). unfold Compose.wrap. simpl.
    by destruct (Compose.compose methodOf l request response next). }
  assert (forall l e method this parameters next,
             called e method this parameters ->
             Compose.compose methodOf (l ++ [e]) request response next
             = Compose.compose methodOf l request response
                 (Some (method this request response (default Compose.noop next)
                               parameters)))
    as Hsnoc.
  { intros l e method this parameters next Hc.
    rewrite (compose_snoc methodOf request response l e next method)
      by by rewrite (Hentry _ _ _ _ Hc).
    by rewrite (Hentry _ _ _ _ Hc). }
  split_and!; [done|exact Hcons|exact Hsnoc| |].
  - intros l ms terminal Hall.
    induction Hall as [|e m l ms [this Hc] _ (chain & IH & Hrun)].
    + exists terminal. split; [done|]. intros log. simpl.
      rewrite !app_nil_r. by destruct (terminal log).
    + rewrite (Hcons _ _ _ _ _ _ Hc), IH. simpl. eexists. split; [done|].
      intros log. unfold Compose.around. rewrite Hrun.
      rewrite <- app_assoc. simpl. by rewrite <- app_assoc.
  - intros l1 e l2 next method this parameters Hc Hign Hl2.
    destruct (compose_resolves methodOf request response l2 next Hl2) as (inner & Hinner).
    unfold Compose.compose in *. rewrite !map_app, !foldr_app. simpl.
    rewrite Hinner, (Hentry _ _ _ _ Hc). simpl.
    by rewrite (Hign inner Compose.noop).
Qed.

Lemma compose_onion_order_witness :
  (exists chain,
      Compose.compose (Instance := string) (Value := string) (Event := string)
        (fun instance n =>
           if String.eqb n "handle"
           then Some (Compose.around (fun _ _ ps => instance +:+ ": enter "
                                                     +:+ default "" (ps !! 0))
                                     (instance +:+ ": leave"))
           else None)
        [Compose.Fn (Compose.around (fun _ _ _ => "A: enter") "A: leave");
         Compose.Obj (Some "acl") (Compose.MethodName "handle") ["admin"];
         Compose.Obj None
           (Compose.MethodFunction (Compose.around (fun _ _ ps => "B: enter "
                                                                    +:+ default "" (ps !! 0))
                                                   "B: leave"))
           ["x"]]
        "request" "response" (Some (fun log => (Some "done", log ++ ["handler"])))
      = Js.Ok chain
      /\ chain []
         = (Some "done",
            ["A: enter"; "acl: enter admin"; "B: enter x"; "handler";
             "B: leave"; "acl: leave"; "A: leave"]))
  /\ Compose.compose (Instance := string) (Value := string) (Event := string)
       (fun _ _ => None)
       [Compose.Fn (Compose.around (fun _ _ _ => "A: enter") "A: leave");
        Compose.Fn (fun _ _ _ _ _ log => (Some "denied", log ++ ["auth: rejected"]));
        Compose.Fn (Compose.around (fun _ _ _ => "B: enter") "B: leave")]
       "request" "response" (Some (fun log => (Some "done", log ++ ["handler"])))
     = Js.Ok (Compose.around (Instance := string) (fun _ _ _ => "A: enter") "A: leave"
                None "request" "response"
                (fun log => (Some "denied", log ++ ["auth: rejected"])) []).
Proof.
  split.
  - destruct (proj1 (proj2 (proj2 (proj2
               (compose_onion_order (Instance := string) (Value := string)
                  (fun instance n =>
                     if String.eqb n "handle"
                     then Some (Compose.around (fun _ _ ps => instance +:+ ": enter "
                                                               +:+ default "" (ps !! 0))
                                               (instance +:+ ": leave"))
                     else None)
                  "request" "response"))))
               [Compose.Fn (Compose.around (fun _ _ _ => "A: enter") "A: leave");
                Compose.Obj (Some "acl") (Compose.MethodName "handle") ["admin"];
                Compose.Obj None
                  (Compose.MethodFunction
                     (Compose.around (fun _ _ ps => "B: enter " +:+ default "" (ps !! 0))
                                     "B: leave"))
                  ["x"]]
               [((fun _ _ _ => "A: enter"), "A: leave", []);
                ((fun _ _ ps => "acl: enter " +:+ default "" (ps !! 0)), "acl: leave",
                 ["admin"]);
                ((fun _ _ ps => "B: enter " +:+ default "" (ps !! 0)), "B: leave", ["x"])]
               (fun log => (Some "done", log ++ ["handler"])))
      as (chain & Hchain & Hrun).
    + constructor; [exists None; left; by split_and!|].
      constructor; [exists (Some "acl"); right; right; exists "acl", "handle";
                    by split_and!|].
      constructor; [exists None; right; left; by split_and!|]. constructor.
    + exists chain. split; [exact Hchain|]. rewrite Hrun. reflexivity.
  - etrans; [apply (proj2 (proj2 (proj2 (proj2
               (compose_onion_order (Instance := string) (Value := string)
                                    (Event := string)
                                    (fun _ _ => None) "request" "response"))))
               [Compose.Fn (Compose.around (fun _ _ _ => "A: enter") "A: leave")]
               (Compose.Fn (fun _ _ _ _ _ log => (Some "denied", log ++ ["auth: rejected"])))
               [Compose.Fn (Compose.around (fun _ _ _ => "B: enter") "B: leave")]
               (Some (fun log => (Some "done", log ++ ["handler"])))
               (fun _ _ _ _ _ log => (Some "denied", log ++ ["auth: rejected"]))
               None [])|reflexivity].
    + left. by split_and!.
    + intros next1 next2. reflexivity.
    + repeat constructor. by eexists.
Defined.

(** Composing [[A, B]] around a handler that returns "done": A is entered
    before B, B before the handler, and A is left after B. *)
Example compose_two_around_handler :
  exists chain,
    Compose.compose (Instance := unit) (fun _ _ => None)
      [Compose.Fn (Compose.around (fun _ _ _ => "A: enter") "A: leave");
       Compose.Fn (Compose.around (fun _ _ _ => "B: enter") "B: leave")]
      "request" "response" (Some (fun log => (Some "done", log ++ ["handler"])))
    = Js.Ok chain
    /\ chain [] = (Some "done",
                   ["A: enter"; "B: enter"; "handler"; "B: leave"; "A: leave"]).
Proof. eexists. split; reflexivity. Qed.

(** * Further properties of the code *)

(** ** Batches of records *)

Section BatchWrites.
Context `{PathToRegexp}.

Lemma eachRecord_cons write i refs (routes : list RouteRecord) :
  RouteBatch.eachRecord write (i :: refs) routes
  = RouteBatch.eachRecord write refs (alter write i routes).
Proof. reflexivity. Qed.

Lemma eachRecord_length write refs (routes : list RouteRecord) :
  length (RouteBatch.eachRecord write refs routes) = length routes.
Proof.
  revert routes. induction refs as [|i refs IH]; intros routes; [done|].
  by rewrite eachRecord_cons, IH, length_alter.
Qed.

(** Each record referenced once is written once; the others are left. *)
Lemma eachRecord_lookup write refs (routes : list RouteRecord) (i : nat) :
  NoDup refs ->
  RouteBatch.eachRecord write refs routes !! i
  = if decide (i ∈ refs) then write <$> routes !! i else routes !! i.
Proof.
  intros Hnd. revert routes.
  induction Hnd as [|j refs Hj Hnd IH]; intros routes.
  - by rewrite decide_False by apply not_elem_of_nil.
  - rewrite eachRecord_cons, IH.
    destruct (decide (i = j)) as [->|Hne].
    + rewrite (decide_False (P := j ∈ refs)) by done.
      rewrite (decide_True (P := j ∈ j :: refs)) by (apply elem_of_cons; by left).
      apply list_lookup_alter_eq.
    + rewrite list_lookup_alter_ne by done.
      destruct (decide (i ∈ refs)) as [Hin|Hnin].
      * by rewrite decide_True by (apply elem_of_cons; by right).
      * rewrite decide_False; [done|].
        intros [?|?]%elem_of_cons; done.
Qed.

Lemma eachRecord_Forall (P : RouteRecord -> Prop) write refs (routes : list RouteRecord) :
  (forall r, P r -> P (write r)) ->
  Forall P routes -> Forall P (RouteBatch.eachRecord write refs routes).
Proof.
  intros Hw. revert routes. induction refs as [|i refs IH]; intros routes Hr; [done|].
  rewrite eachRecord_cons. apply IH. apply Forall_alter; [done|]. intros r _. apply Hw.
Qed.

Lemma addDomain_eachRecord refs d (routes : list RouteRecord) :
  RouterHelper.addDomain refs d routes
  = RouteBatch.eachRecord (set_domain (Some d)) refs routes.
Proof. reflexivity. Qed.

End BatchWrites.
Section BatchStops.
Context `{PathToRegexp}.

Lemma alter_insert (f : RouteRecord -> RouteRecord) (i : nat) (l : list RouteRecord)
      (r : RouteRecord) :
  l !! i = Some r -> alter f i l = <[i := f r]> l.
Proof.
  intros Hr. apply list_eq. intros j. destruct (decide (j = i)) as [->|Hne].
  - rewrite list_lookup_alter_eq, list_lookup_insert_eq by by eapply lookup_lt_Some.
    by rewrite Hr.
  - by rewrite list_lookup_alter_ne, list_lookup_insert_ne.
Qed.

End BatchStops.

(** X1.  [prefixRoute] stops at the first record.  On an empty batch it
    does nothing.  On any other batch it throws a TypeError once it has
    written the template of the first record of the batch: the prefix,
    given a leading slash when it has none, for the template [/], and that
    prefix followed by the template otherwise.  The pattern of that record
    is not compiled again, and no other record is written. *)
Theorem prefixRoute_stops_at_first `{PathToRegexp} (prefix : string)
        (routes : list RouteRecord) :
  RouteBatch.prefixRoute [] prefix routes = (Js.Ok tt, routes)
  /\ forall ref refs r,
      routes !! ref = Some r ->
      exists message,
        RouteBatch.prefixRoute (ref :: refs) prefix routes
        = (Js.Throw (Js.TypeError message),
           <[ref := mkRoute
                      (let p := if Js.startsWith "/" prefix then prefix
                                else "/" +:+ prefix in
                       if String.eqb (route r) "/" then p else p +:+ route r)
                      (verb r) (handler r) (pattern r) (middlewares r) (name r)
                      (group r) (domain r) (matchedVerb r) (params r)]> routes).
Proof.
  split; [done|]. intros ref refs r Hr. eexists.
  unfold RouteBatch.prefixRoute, RouteBatch.eachTemplateThenThrow.
  by rewrite (alter_insert _ _ _ r Hr).
Qed.

Lemma prefixRoute_stops_at_first_witness :
  exists message,
    RouteBatch.prefixRoute [0; 1] "v1"
      (Route.routes (Route.get "/posts" HNull (Route.get "/users" HNull Route.new)))
    = (Js.Throw (Js.TypeError message),
       [mkRoute "/v1/users" ["GET"; "HEAD"] HNull (pathToRegexp "/users") [] "/users"
                None None None None;
        mkRoute "/posts" ["GET"; "HEAD"] HNull (pathToRegexp "/posts") [] "/posts"
                None None None None]).
Proof.
  destruct (proj2 (prefixRoute_stops_at_first "v1"
                     (Route.routes
                        (Route.get "/posts" HNull (Route.get "/users" HNull Route.new))))
              0 [1] (RouterHelper.construct "/users" ["GET"; "HEAD"] HNull None) eq_refl)
    as [message Hthrow].
  exists message. rewrite Hthrow. reflexivity.
Defined.

Section BatchFacts.
Context `{PathToRegexp}.

Lemma set_middlewares_same (r : RouteRecord) : set_middlewares (middlewares r) r = r.
Proof. by destruct r. Qed.

Lemma appendMiddleware_lookup refs mws (routes : list RouteRecord) i r :
  NoDup refs ->
  routes !! i = Some r ->
  RouteBatch.appendMiddleware refs mws routes !! i
  = Some (if decide (i ∈ refs) then set_middlewares (middlewares r ++ mws) r else r).
Proof.
  intros Hnd Hr. unfold RouteBatch.appendMiddleware.
  rewrite eachRecord_lookup, Hr by done. by destruct (decide (i ∈ refs)).
Qed.

Lemma lookup_None_both (l k : list RouteRecord) i :
  length l = length k -> l !! i = None -> k !! i = None.
Proof.
  intros Hlen Hl. apply lookup_ge_None. apply lookup_ge_None in Hl. lia.
Qed.

End BatchFacts.

(** X2.  [appendMiddleware] on a batch appends the keys, in their order,
    after the middleware that each record of the batch already has, and
    leaves the other records as they are; appending [a] and then [b] is
    appending [a ++ b], and appending no key changes nothing. *)
Theorem appendMiddleware_composes `{PathToRegexp} (refs : list nat)
        (a b : list string) (routes : list RouteRecord) :
  NoDup refs ->
  (forall i r,
      routes !! i = Some r ->
      RouteBatch.appendMiddleware refs a routes !! i
      = Some (if decide (i ∈ refs) then set_middlewares (middlewares r ++ a) r else r))
  /\ RouteBatch.appendMiddleware refs b (RouteBatch.appendMiddleware refs a routes)
     = RouteBatch.appendMiddleware refs (a ++ b) routes
  /\ RouteBatch.appendMiddleware refs [] routes = routes.
Proof.
  intros Hnd. split_and!.
  - intros i r. by apply appendMiddleware_lookup.
  - apply list_eq. intros i. destruct (routes !! i) as [r|] eqn:Hr.
    + rewrite (appendMiddleware_lookup refs (a ++ b) routes i r) by done.
      rewrite (appendMiddleware_lookup refs b _ i
                 (if decide (i ∈ refs) then set_middlewares (middlewares r ++ a) r else r));
        [|done|by apply appendMiddleware_lookup].
      destruct (decide (i ∈ refs)); [|done]. simpl. by rewrite app_assoc.
    + transitivity (@None RouteRecord); [|symmetry];
        (eapply lookup_None_both; [|exact Hr]);
        unfold RouteBatch.appendMiddleware; by rewrite !eachRecord_length.
  - apply list_eq. intros i. destruct (routes !! i) as [r|] eqn:Hr.
    + rewrite (appendMiddleware_lookup refs [] routes i r) by done.
      destruct (decide (i ∈ refs)); [|done].
      by rewrite app_nil_r, set_middlewares_same.
    + eapply lookup_None_both; [|exact Hr].
      unfold RouteBatch.appendMiddleware. by rewrite eachRecord_length.
Qed.

Lemma appendMiddleware_composes_witness :
  middlewares
    <$> RouteBatch.appendMiddleware [1] ["csrf"]
          (RouteBatch.appendMiddleware [1] ["auth"]
             (Route.routes (Route.get "/b" HNull (Route.get "/a" HNull Route.new))))
  = [[]; ["auth"; "csrf"]].
Proof.
  rewrite (proj1 (proj2 (appendMiddleware_composes [1] ["auth"] ["csrf"]
             (Route.routes (Route.get "/b" HNull (Route.get "/a" HNull Route.new)))
             ltac:(compute_done)))).
  reflexivity.
Defined.
(** X3.  [addFormats] stops at the first record.  On an empty batch it
    does nothing.  On any other batch it throws a TypeError once it has
    appended, to the template of the first record of the batch, the
    parameter [:format(.f1|.f2|...)], followed by [?] unless [strict] is
    set.  The pattern of that record is not compiled again, and no other
    record is written. *)
Theorem addFormats_stops_at_first `{PathToRegexp} (formats : list string)
        (strict : bool) (routes : list RouteRecord) :
  RouteBatch.addFormats [] formats strict routes = (Js.Ok tt, routes)
  /\ forall ref refs r,
      routes !! ref = Some r ->
      exists message,
        RouteBatch.addFormats (ref :: refs) formats strict routes
        = (Js.Throw (Js.TypeError message),
           <[ref := mkRoute
                      (route r +:+ ":format(." +:+ JsString.join "|." formats
                               +:+ ")" +:+ (if strict then "" else "?"))
                      (verb r) (handler r) (pattern r) (middlewares r) (name r)
                      (group r) (domain r) (matchedVerb r) (params r)]> routes).
Proof.
  split; [done|]. intros ref refs r Hr. eexists.
  unfold RouteBatch.addFormats, RouteBatch.eachTemplateThenThrow.
  by rewrite (alter_insert _ _ _ r Hr).
Qed.

Lemma addFormats_stops_at_first_witness :
  exists message,
    RouteBatch.addFormats [1; 0] ["json"; "xml"] false
      (Route.routes (Route.get "/posts" HNull (Route.get "/users" HNull Route.new)))
    = (Js.Throw (Js.TypeError message),
       [mkRoute "/users" ["GET"; "HEAD"] HNull (pathToRegexp "/users") [] "/users"
                None None None None;
        mkRoute "/posts:format(.json|.xml)?" ["GET"; "HEAD"] HNull
                (pathToRegexp "/posts") [] "/posts" None None None None]).
Proof.
  destruct (proj2 (addFormats_stops_at_first ["json"; "xml"] false
                     (Route.routes
                        (Route.get "/posts" HNull (Route.get "/users" HNull Route.new))))
              1 [0] (RouterHelper.construct "/posts" ["GET"; "HEAD"] HNull None) eq_refl)
    as [message Hthrow].
  exists message. rewrite Hthrow. reflexivity.
Defined.

(** X4.  [Group.domain(d)] registers the pattern compiled from [d] after
    the domains already registered, so that a host matches afterwards when
    it matched before or when that pattern tests true on it, and sets the
    domain of exactly the records of the group; it leaves the template and
    the pattern of every record as they are. *)
Theorem group_domain_tags_group `{PathToRegexp} (groupRoutes : list nat) (d : string)
        (st : Route.Router) :
  NoDup groupRoutes ->
  Route.registeredDomains (Route.group_domain groupRoutes d st)
  = Route.registeredDomains st ++ [pathToRegexp d]
  /\ (forall host,
         Route.domains_match host (Route.group_domain groupRoutes d st)
         = Route.domains_match host st || regexp_test (pathToRegexp d) host)
  /\ (forall i r,
         Route.routes st !! i = Some r ->
         Route.routes (Route.group_domain groupRoutes d st) !! i
         = Some (if decide (i ∈ groupRoutes) then set_domain (Some d) r else r))
  /\ route <$> Route.routes (Route.group_domain groupRoutes d st)
     = route <$> Route.routes st
  /\ pattern <$> Route.routes (Route.group_domain groupRoutes d st)
     = pattern <$> Route.routes st.
Proof.
  intros Hnd.
  assert (forall i r,
             Route.routes st !! i = Some r ->
             Route.routes (Route.group_domain groupRoutes d st) !! i
             = Some (if decide (i ∈ groupRoutes) then set_domain (Some d) r else r))
    as Hat.
  { intros i r Hr. simpl. rewrite addDomain_eachRecord, eachRecord_lookup, Hr by done.
    by destruct (decide (i ∈ groupRoutes)). }
  assert (forall (B : Type) (g : RouteRecord -> B),
             (forall r, g (set_domain (Some d) r) = g r) ->
             g <$> Route.routes (Route.group_domain groupRoutes d st)
             = g <$> Route.routes st) as Hkeep.
  { intros B g Hg. apply list_eq. intros i. rewrite !list_lookup_fmap.
    destruct (Route.routes st !! i) as [r|] eqn:Hr.
    - rewrite (Hat i r Hr). simpl. destruct (decide (i ∈ groupRoutes)); [|done].
      by rewrite Hg.
    - rewrite (lookup_None_both (Route.routes st) _ i); [done| |done].
      simpl. by rewrite addDomain_eachRecord, eachRecord_length. }
  split_and!; [done| |done|by apply Hkeep|by apply Hkeep].
  intros host. unfold Route.domains_match. simpl.
  rewrite existsb_app. simpl. by rewrite orb_false_r.
Qed.

Lemma group_domain_tags_group_witness :
  domain <$> Route.routes
               (Route.group_domain [1] "admin.example.com"
                  (Route.get "/b" HNull (Route.get "/a" HNull Route.new)))
  = [None; Some "admin.example.com"].
Proof.
  apply list_eq. intros i.
  pose proof (proj1 (proj2 (proj2 (group_domain_tags_group [1] "admin.example.com"
                 (Route.get "/b" HNull (Route.get "/a" HNull Route.new))
                 ltac:(compute_done))))) as Hat.
  destruct i as [|[|i]]; [| |reflexivity].
  - rewrite list_lookup_fmap, (Hat 0 _ eq_refl). reflexivity.
  - rewrite list_lookup_fmap, (Hat 1 _ eq_refl). reflexivity.
Defined.
(** ** Invariants of registration *)

Section WellFormed.
Context `{PathToRegexp}.

Lemma startsWith_append (c : ascii) (a b : string) :
  Js.startsWith c a = true -> Js.startsWith c (a +:+ b) = true.
Proof. by destruct a. Qed.

Lemma startsWith_slashed (s : string) :
  Js.startsWith "/" (if Js.startsWith "/" s then s else "/" +:+ s) = true.
Proof. by destruct (Js.startsWith "/" s) eqn:Hs. Qed.

Lemma construct_wellFormed path verb' h g :
  wellFormed (RouterHelper.construct path verb' h g).
Proof. split; [apply startsWith_slashed|done]. Qed.

Lemma splice_Forall {A : Type} (P : A -> Prop) start n (l : list A) :
  Forall P l -> Forall P (splice start n l).
Proof.
  intros Hl. unfold splice. apply Forall_app. split.
  - by apply Forall_take.
  - by apply Forall_drop.
Qed.

Lemma resolve_wellFormed (st : Route.Router) (urlPath verb' host : string) :
  Forall wellFormed (Route.routes st) ->
  Forall wellFormed (Route.routes (Route.resolve urlPath verb' host st).2).
Proof.
  intros Hst.
  destruct (domain_or_none (Route.routes st)) as [Hex|Hdom].
  { by rewrite resolve_throws. }
  destruct (first_match_or_none
              (if Route.domains_match host st then host +:+ urlPath else urlPath)
              verb' (Route.routes st))
    as [Hall|(pre & r & post & Hr & Hpre & Hm)].
  { by rewrite resolve_no_match. }
  destruct (resolve_match st urlPath verb' host pre r post Hdom Hr Hpre Hm)
    as (groups & ps & _ & -> & _).
  simpl. rewrite Hr in Hst. apply Forall_app in Hst as [Hp Hrp].
  apply Forall_cons in Hrp as [Hwr Hpost].
  apply Forall_app. split; [done|]. by constructor.
Qed.

End WellFormed.

(** X5.  The operations that build and use the registry keep each record
    in the shape that registration gives it: the template starts with a
    slash and the pattern is the one compiled from the template.  This
    holds for [route], [as], [remove], the group operations [middleware]
    and [domain], [resolve], and [group] around a callback that keeps it,
    whether [group] returns or throws. *)
Theorem registration_keeps_wellFormed `{PathToRegexp} (st : Route.Router) :
  Forall wellFormed (Route.routes st) ->
  (forall path verb' h, Forall wellFormed (Route.routes (Route.route path verb' h st)))
  /\ (forall n st', Route.as_ n st = Js.Ok st' -> Forall wellFormed (Route.routes st'))
  /\ (forall n, Forall wellFormed (Route.routes (Route.remove n st)))
  /\ (forall g keys, Forall wellFormed (Route.routes (Group.middleware g keys st)))
  /\ (forall g d, Forall wellFormed (Route.routes (Route.group_domain g d st)))
  /\ (forall urlPath verb' host,
         Forall wellFormed (Route.routes (Route.resolve urlPath verb' host st).2))
  /\ (forall n cb,
         (forall s, Forall wellFormed (Route.routes s) ->
                    Forall wellFormed (Route.routes (cb s))) ->
         Forall wellFormed (Route.routes (Route.group n cb st).2)).
Proof.
  intros Hst. split_and!.
  - intros path verb' h. simpl. apply Forall_app. split; [done|].
    repeat constructor. apply startsWith_slashed.
  - intros n st'. unfold Route.as_. destruct (Route._lastRoute st); [|done].
    intros [= <-]. simpl. apply Forall_alter; [done|]. by intros [] _ [].
  - intros n. simpl. by apply splice_Forall.
  - intros g keys. simpl. apply eachRecord_Forall; [|done]. by intros [] [].
  - intros g d. simpl. rewrite addDomain_eachRecord.
    apply eachRecord_Forall; [|done]. by intros [] [].
  - intros urlPath verb' host. by apply resolve_wellFormed.
  - intros n cb Hcb. unfold Route.group.
    pose proof (Hcb (Route.mkRouter (Route.routes st) (Some n) (Route.registeredDomains st))
                    Hst) as Hcb'.
    destruct (Route.routes (cb _)) eqn:Hroutes; simpl; [by constructor|].
    by rewrite Hroutes.
Qed.

Lemma registration_keeps_wellFormed_witness :
  Forall wellFormed
         (Route.routes (Route.resolve "/user/7" "GET" "localhost" Examples.userRoutes).2).
Proof.
  apply (proj1 (proj2 (proj2 (proj2 (proj2 (proj2
           (registration_keeps_wellFormed Examples.userRoutes
              ltac:(repeat constructor)))))))).
Defined.

(** ** The registry as a state *)

Section RegistryState.
Context `{PathToRegexp}.

Lemma as_after_route (n path : string) (verb' : list string) (h : Handler)
      (st : Route.Router) :
  Route.as_ n (Route.route path verb' h st)
  = Js.Ok (Route.set_routes
             (Route.routes st
              ++ [set_name n (RouterHelper.construct path verb' h (Route.activeGroup st))])
             st).
Proof.
  unfold Route.as_, Route._lastRoute, Route.route. simpl.
  rewrite last_snoc, length_app. simpl.
  replace (length (Route.routes st) + 1 - 1) with (length (Route.routes st) + 0) by lia.
  by rewrite alter_app_r.
Qed.

Lemma set_routes_twice (a b : list RouteRecord) (st : Route.Router) :
  Route.set_routes a (Route.set_routes b st) = Route.set_routes a st.
Proof. reflexivity. Qed.

Lemma remove_first_named_state (n : string) (st : Route.Router) pre r post :
  Route.routes st = pre ++ r :: post ->
  Forall (fun r' => name r' ≠ n) pre ->
  name r = n ->
  Route.remove n st = Route.set_routes (pre ++ post) st.
Proof.
  intros Hr Hpre Hn.
  pose proof (remove_first_named n st pre r post Hr Hpre Hn) as Hrem.
  unfold Route.remove in *. simpl in Hrem. by rewrite Hrem.
Qed.

End RegistryState.

(** ** Naming, looking up and removing routes *)

Section NamedRoutes.
Context `{PathToRegexp}.

Lemma atIndex_nat {A : Type} (l : list A) (n : nat) :
  atIndex l (Z.of_nat n) = l !! n.
Proof.
  unfold atIndex. destruct (Z.ltb_spec (Z.of_nat n) 0); [lia|]. by rewrite Nat2Z.id.
Qed.

Lemma getRoute_first (p : RouteRecord -> bool) (st : Route.Router) pre r post :
  Route.routes st = pre ++ r :: post ->
  Forall (fun r' => p r' = false) pre ->
  p r = true ->
  Registry.getRoute p st = Some r.
Proof.
  intros Hr Hpre Hp. unfold Registry.getRoute, findIndex. rewrite Hr.
  rewrite (findIndexFrom_first p 0 pre r post Hpre Hp), Z.add_0_l, atIndex_nat.
  by rewrite lookup_app_r, Nat.sub_diag.
Qed.

Lemma getRoute_none (p : RouteRecord -> bool) (st : Route.Router) :
  Forall (fun r' => p r' = false) (Route.routes st) ->
  Registry.getRoute p st = None.
Proof.
  intros Hall. unfold Registry.getRoute, findIndex.
  by rewrite findIndexFrom_none.
Qed.

Lemma first_named (n : string) (routes : list RouteRecord) :
  Forall (fun r => name r ≠ n) routes
  \/ exists pre r post,
      routes = pre ++ r :: post /\ Forall (fun r' => name r' ≠ n) pre /\ name r = n.
Proof.
  induction routes as [|r rest IH]; [by left|].
  destruct (decide (name r = n)) as [Hn|Hn].
  - right. by exists [], r, rest.
  - destruct IH as [Hall|(pre & r' & post & -> & Hpre & Hr')].
    + left. by constructor.
    + right. exists (r :: pre), r', post. split_and!; [done| |done]. by constructor.
Qed.

Lemma name_test_false (n : string) (l : list RouteRecord) :
  Forall (fun r => name r ≠ n) l ->
  Forall (fun r => String.eqb (name r) n = false) l.
Proof.
  intros Hl. eapply Forall_impl; [exact Hl|]. intros r Hr. by apply String.eqb_neq.
Qed.

End NamedRoutes.

(** X6.  [as(name)] writes the name of the last record only: on an empty
    registry it throws a TypeError, otherwise every record before the last
    and every other property of the last one stay as they are. *)
Theorem as_renames_last `{PathToRegexp} (n : string) (st : Route.Router) :
  (Route.routes st = [] -> exists msg, Route.as_ n st = Js.Throw (Js.TypeError msg))
  /\ (forall pre r,
         Route.routes st = pre ++ [r] ->
         Route.as_ n st = Js.Ok (Route.set_routes (pre ++ [set_name n r]) st)).
Proof.
  split.
  - intros Hr. unfold Route.as_, Route._lastRoute. rewrite Hr. by eexists.
  - intros pre r Hr. unfold Route.as_, Route._lastRoute. rewrite Hr, last_snoc.
    rewrite length_app. simpl.
    replace (length pre + 1 - 1) with (length pre + 0) by lia.
    by rewrite alter_app_r.
Qed.

Lemma as_renames_last_witness :
  Route.as_ "home" (Route.get "/b" HNull (Route.get "/a" HNull Route.new))
  = Js.Ok (Route.set_routes
             ([RouterHelper.construct "/a" ["GET"; "HEAD"] HNull None]
              ++ [set_name "home" (RouterHelper.construct "/b" ["GET"; "HEAD"] HNull None)])
             (Route.get "/b" HNull (Route.get "/a" HNull Route.new))).
Proof.
  apply (proj2 (as_renames_last "home"
                  (Route.get "/b" HNull (Route.get "/a" HNull Route.new)))).
  reflexivity.
Defined.

(** X7.  [remove(name)], when a record has the name, deletes the first such
    record and nothing else; when that record was the only one with the
    name, [getRoute] no longer finds the name and [url] compiles the name as
    a template. *)
Theorem remove_deletes_first_named `{PathToRegexp} (n : string) (st : Route.Router)
        (pre : list RouteRecord) (r : RouteRecord) (post : list RouteRecord) :
  Route.routes st = pre ++ r :: post ->
  Forall (fun r' => name r' ≠ n) pre ->
  name r = n ->
  Route.remove n st = Route.set_routes (pre ++ post) st
  /\ (Forall (fun r' => name r' ≠ n) post ->
      Registry.getRoute (fun r' => String.eqb (name r') n) (Route.remove n st) = None
      /\ forall values,
          Route.url n values (Route.remove n st) = pathToRegexp_compile n values).
Proof.
  intros Hr Hpre Hn.
  rewrite (remove_first_named_state n st pre r post Hr Hpre Hn).
  split; [done|]. intros Hpost.
  assert (Forall (fun r' => name r' ≠ n) (pre ++ post)) as Hall
      by (apply Forall_app; by split).
  split.
  - apply getRoute_none. simpl. by apply name_test_false.
  - intros values. by apply url_template.
Qed.

Lemma remove_deletes_first_named_witness :
  Route.remove "/a" (Route.get "/b" HNull (Route.get "/a" HNull Route.new))
  = Route.set_routes ([] ++ [RouterHelper.construct "/b" ["GET"; "HEAD"] HNull None])
                     (Route.get "/b" HNull (Route.get "/a" HNull Route.new)).
Proof.
  apply (remove_deletes_first_named "/a"
           (Route.get "/b" HNull (Route.get "/a" HNull Route.new))
           [] (RouterHelper.construct "/a" ["GET"; "HEAD"] HNull None)
           [RouterHelper.construct "/b" ["GET"; "HEAD"] HNull None]).
  - reflexivity.
  - constructor.
  - reflexivity.
Defined.

(** X8.  Lookup by name returns the first registration.  When a record
    already has the name, a route registered later and given the same name
    changes neither what [getRoute] returns for the name nor the url built
    for it; when no record has the name, [getRoute] returns the route just
    named. *)
Theorem named_lookup_returns_first `{PathToRegexp} (n path : string)
        (verb' : list string) (h : Handler) (st st' : Route.Router) :
  Route.as_ n (Route.route path verb' h st) = Js.Ok st' ->
  (Exists (fun r => name r = n) (Route.routes st) ->
   is_Some (Registry.getRoute (fun r => String.eqb (name r) n) st)
   /\ Registry.getRoute (fun r => String.eqb (name r) n) st'
      = Registry.getRoute (fun r => String.eqb (name r) n) st
   /\ forall values, Route.url n values st' = Route.url n values st)
  /\ (Forall (fun r => name r ≠ n) (Route.routes st) ->
      Registry.getRoute (fun r => String.eqb (name r) n) st'
      = Some (set_name n (RouterHelper.construct path verb' h (Route.activeGroup st)))).
Proof.
  rewrite as_after_route. intros [= <-]. split.
  - intros Hex.
    destruct (first_named n (Route.routes st)) as [Hall|(pre & r & post & Hr & Hpre & Hn)].
    { apply Exists_exists in Hex as (r & Hin & Hn). rewrite Forall_forall in Hall.
      by destruct (Hall r Hin). }
    assert (String.eqb (name r) n = true) as Hp by by apply String.eqb_eq.
    pose proof (name_test_false n pre Hpre) as Hpre'.
    rewrite (getRoute_first _ st pre r post Hr Hpre' Hp).
    split; [by eexists|]. split.
    + apply (getRoute_first _ _ pre r
               (post ++ [set_name n (RouterHelper.construct path verb' h
                                                            (Route.activeGroup st))]));
        [|done|done].
      simpl. by rewrite Hr, <- app_assoc.
    + intros values.
      rewrite (url_named st n values pre r post Hr Hpre Hn).
      apply (url_named _ n values pre r
               (post ++ [set_name n (RouterHelper.construct path verb' h
                                                            (Route.activeGroup st))]));
        [|done|done].
      simpl. by rewrite Hr, <- app_assoc.
  - intros Hall.
    apply (getRoute_first _ _ (Route.routes st) _ []);
      [done|by apply name_test_false|apply String.eqb_refl].
Qed.

Lemma named_lookup_returns_first_witness :
  Registry.getRoute (fun r => String.eqb (name r) "/a")
    (Route.set_routes
       (Route.routes (Route.get "/a" HNull Route.new)
        ++ [set_name "/a" (RouterHelper.construct "/b" ["POST"] HNull None)])
       (Route.get "/a" HNull Route.new))
  = Registry.getRoute (fun r => String.eqb (name r) "/a")
                      (Route.get "/a" HNull Route.new).
Proof.
  apply (proj1 (named_lookup_returns_first "/a" "/b" ["POST"] HNull
                  (Route.get "/a" HNull Route.new) _ eq_refl)).
  constructor. reflexivity.
Defined.
(** ** Groups *)

Section GroupCollect.
Context `{PathToRegexp}.

Lemma registerAll_state specs (st : Route.Router) :
  Registry.registerAll specs st
  = Route.set_routes
      (Route.routes st
       ++ map (fun spec => RouterHelper.construct spec.1.1 spec.1.2 spec.2
                                                  (Route.activeGroup st)) specs) st.
Proof.
  revert st. induction specs as [|spec specs IH]; intros st.
  - simpl. rewrite app_nil_r. by destruct st.
  - unfold Registry.registerAll in *. simpl fold_left. rewrite IH.
    unfold Route.route, Route.set_routes. simpl. by rewrite <- app_assoc.
Qed.

End GroupCollect.



(** ** Resolution across requests *)

Section ResolutionAcrossRequests.
Context `{PathToRegexp}.

Lemma sameForResolution_fields (r r' : RouteRecord) :
  sameForResolution r r' ->
  domain r' = domain r /\ pattern r' = pattern r /\ verb r' = verb r.
Proof.
  intros Heq. unfold sameForResolution in Heq.
  split_and!; [by apply (f_equal domain) in Heq|by apply (f_equal pattern) in Heq
              |by apply (f_equal verb) in Heq].
Qed.

Lemma sameForResolution_match urlPath verb' (r r' : RouteRecord) :
  sameForResolution r r' ->
  RouterHelper.matchesUrl urlPath verb' r' = RouterHelper.matchesUrl urlPath verb' r.
Proof.
  intros (_ & Hp & Hv)%sameForResolution_fields. unfold RouterHelper.matchesUrl.
  by rewrite Hp, Hv.
Qed.

Lemma sameForResolution_copy verb' (r r' : RouteRecord) :
  sameForResolution r r' ->
  set_matchedVerb (Some verb') r' = set_matchedVerb (Some verb') r.
Proof.
  intros Heq. unfold sameForResolution in Heq.
  change (set_matchedVerb (Some verb') (set_matchedVerb None r')
          = set_matchedVerb (Some verb') (set_matchedVerb None r)).
  by rewrite Heq.
Qed.

Lemma sameForResolution_Forall (P : RouteRecord -> bool) (l l' : list RouteRecord)
      (b : bool) :
  (forall r r', sameForResolution r r' -> P r' = P r) ->
  Forall2 sameForResolution l l' ->
  Forall (fun r => P r = b) l -> Forall (fun r => P r = b) l'.
Proof.
  intros HP Hsim. induction Hsim as [|r r' l l' Hs _ IH]; [done|].
  intros [Hr Hl]%Forall_cons. constructor; [|by apply IH].
  by rewrite (HP r r').
Qed.

Lemma resolve_sameForResolution (st st' : Route.Router) (urlPath verb' host : string) :
  Route.registeredDomains st' = Route.registeredDomains st ->
  Forall2 sameForResolution (Route.routes st) (Route.routes st') ->
  (Route.resolve urlPath verb' host st').1 = (Route.resolve urlPath verb' host st).1.
Proof.
  intros Hd Hsim.
  assert (Route.domains_match host st' = Route.domains_match host st) as Hdm
      by (unfold Route.domains_match; by rewrite Hd).
  assert (forall r r', sameForResolution r r' ->
                       Js.truthy_opt (domain r') = Js.truthy_opt (domain r)) as Hdomain.
  { intros r r' (Hdr & _)%sameForResolution_fields. by rewrite Hdr. }
  destruct (domain_or_none (Route.routes st)) as [Hex|Hdom].
  { rewrite (resolve_throws st) by done. rewrite resolve_throws; [done|].
    clear Hd Hdm. induction Hsim as [|r r' l l' Hs _ IH]; [by apply Exists_nil in Hex|].
    apply Exists_cons in Hex as [Hr|Hex].
    - left. by rewrite (Hdomain r r').
    - right. by apply IH. }
  pose proof (sameForResolution_Forall (fun r => Js.truthy_opt (domain r)) _ _ false
                                       Hdomain Hsim Hdom) as Hdom'.
  set (path := if Route.domains_match host st then host +:+ urlPath else urlPath).
  destruct (first_match_or_none path verb' (Route.routes st))
    as [Hall|(pre & r & post & Hr & Hpre & Hm)].
  - rewrite (resolve_no_match st) by done. rewrite resolve_no_match; [done|done|].
    rewrite Hdm. fold path.
    eapply (sameForResolution_Forall (RouterHelper.matchesUrl path verb'));
      [|exact Hsim|exact Hall].
    intros x x'. apply sameForResolution_match.
  - rewrite Hr in Hsim.
    apply Forall2_app_inv_l in Hsim as (pre' & k & Hpre' & Hk & Hr').
    apply Forall2_cons_inv_l in Hk as (r' & post' & Hs & _ & ->).
    rewrite (resolve_first_eq st urlPath verb' host pre r post Hdom Hr Hpre Hm).
    rewrite (resolve_first_eq st' urlPath verb' host pre' r' post' Hdom' Hr');
      rewrite Hdm; fold path.
    + by rewrite (sameForResolution_copy verb' r r').
    + eapply (sameForResolution_Forall (RouterHelper.matchesUrl path verb'));
        [|exact Hpre'|exact Hpre].
      intros x x'. apply sameForResolution_match.
    + by rewrite (sameForResolution_match _ _ r r').
Qed.

Lemma Forall2_same (l : list RouteRecord) : Forall2 sameForResolution l l.
Proof. induction l; by constructor. Qed.

(** The registry after [resolve] holds, record by record, what it held
    before, but for [matchedVerb]. *)
Lemma resolve_state_same (st : Route.Router) (urlPath verb' host : string) :
  Route.registeredDomains (Route.resolve urlPath verb' host st).2
  = Route.registeredDomains st
  /\ Forall2 sameForResolution (Route.routes st)
             (Route.routes (Route.resolve urlPath verb' host st).2).
Proof.
  destruct (domain_or_none (Route.routes st)) as [Hex|Hdom].
  { rewrite resolve_throws by done. split; [done|apply Forall2_same]. }
  destruct (first_match_or_none
              (if Route.domains_match host st then host +:+ urlPath else urlPath)
              verb' (Route.routes st))
    as [Hall|(pre & r & post & Hr & Hpre & Hm)].
  { rewrite resolve_no_match by done. split; [done|apply Forall2_same]. }
  destruct (resolve_match st urlPath verb' host pre r post Hdom Hr Hpre Hm)
    as (groups & ps & _ & -> & _).
  split; [done|]. simpl. rewrite Hr.
  apply Forall2_app; [apply Forall2_same|]. constructor; [done|apply Forall2_same].
Qed.

End ResolutionAcrossRequests.

(** X10.  What [resolve] returns does not depend on the requests resolved
    before: although a resolution writes [matchedVerb] on a record of the
    registry, resolving after any other resolution gives the result, or the
    error, of resolving on the registry as it was built. *)
Theorem resolve_ignores_earlier_resolutions `{PathToRegexp} (st : Route.Router)
        (urlPath verb' host urlPath0 verb0 host0 : string) :
  (Route.resolve urlPath verb' host (Route.resolve urlPath0 verb0 host0 st).2).1
  = (Route.resolve urlPath verb' host st).1.
Proof.
  destruct (resolve_state_same st urlPath0 verb0 host0) as [Hd Hsim].
  by apply resolve_sameForResolution.
Qed.

(** X11.  Two verbs that the same records answer are resolved alike: when
    every record has both verbs or neither, as [GET] and [HEAD] on routes
    registered with [get], resolving with one gives the result of resolving
    with the other, with [matchedVerb] set to the verb requested, and
    throws when the other throws. *)
Theorem resolve_equivalent_verbs `{PathToRegexp} (st : Route.Router)
        (urlPath verb1 verb2 host : string) :
  Forall (fun r => Js.includes (verb r) verb1 = Js.includes (verb r) verb2)
         (Route.routes st) ->
  (Route.resolve urlPath verb1 host st).1
  = Js.bind (Route.resolve urlPath verb2 host st).1
            (fun found =>
               Js.Ok ((fun r => mkRoute (route r) (verb r) (handler r) (pattern r)
                                        (middlewares r) (name r) (group r) (domain r)
                                        (Some verb1) (params r)) <$> found)).
Proof.
  intros Hverbs.
  destruct (domain_or_none (Route.routes st)) as [Hex|Hdom].
  { by rewrite !resolve_throws. }
  set (path := if Route.domains_match host st then host +:+ urlPath else urlPath).
  assert (forall l : list RouteRecord,
             Forall (fun r => Js.includes (verb r) verb1 = Js.includes (verb r) verb2) l ->
             Forall (fun r => RouterHelper.matchesUrl path verb2 r = false) l ->
             Forall (fun r => RouterHelper.matchesUrl path verb1 r = false) l) as Hnone.
  { intros l Hl Hn. induction Hl as [|r l Hr _ IH]; [done|].
    apply Forall_cons in Hn as [Hn0 Hn]. constructor; [|by apply IH].
    unfold RouterHelper.matchesUrl in *. by rewrite Hr. }
  destruct (first_match_or_none path verb2 (Route.routes st))
    as [Hall|(pre & r & post & Hr & Hpre & Hm)].
  - rewrite (resolve_no_match st urlPath verb2 host) by done.
    rewrite (resolve_no_match st urlPath verb1 host); [done|done|]. by apply Hnone.
  - rewrite Hr in Hverbs. apply Forall_app in Hverbs as [Hvpre Hvr].
    apply Forall_cons in Hvr as [Hvr _].
    rewrite (resolve_first_eq st urlPath verb2 host pre r post Hdom Hr Hpre Hm).
    rewrite (resolve_first_eq st urlPath verb1 host pre r post Hdom Hr).
    + unfold RouterHelper.returnRouteArguments. simpl. fold path.
      by destruct (RouterHelper.assignParams _ _ _ _).
    + by apply Hnone.
    + unfold RouterHelper.matchesUrl in *. by rewrite Hvr.
Qed.

Lemma resolve_equivalent_verbs_witness :
  (Route.resolve "/user/7" "HEAD" "localhost" Examples.userRoutes).1
  = Js.bind (Route.resolve "/user/7" "GET" "localhost" Examples.userRoutes).1
            (fun found =>
               Js.Ok ((fun r => mkRoute (route r) (verb r) (handler r) (pattern r)
                                        (middlewares r) (name r) (group r) (domain r)
                                        (Some "HEAD") (params r)) <$> found)).
Proof.
  apply (resolve_equivalent_verbs Examples.userRoutes "/user/7" "HEAD" "GET" "localhost").
  repeat constructor.
Defined.

(** ** Composition of lists of middleware *)

Section ComposeLists.
Context {Request Response Instance Value Event : Type}.
Variable methodOf :
  Instance -> string -> option (Compose.MiddlewareFn Request Response Instance Value Event).
Variables (request : Request) (response : Response).

Lemma foldr_wrap_throw (e : Js.Exception)
      (l : list (Compose.Composed Request Response Instance Value Event)) :
  foldr (Compose.wrap request response) (Js.Throw e) l = Js.Throw e.
Proof. induction l as [|m l IH]; [done|]. simpl. by rewrite IH. Qed.

Lemma compose_returns_or_TypeError l next :
  (exists chain, Compose.compose methodOf l request response next = Js.Ok chain)
  \/ (exists msg,
         Compose.compose methodOf l request response next = Js.Throw (Js.TypeError msg)).
Proof.
  induction l as [|e l [(chain & IH)|(msg & IH)]].
  - left. by eexists.
  - rewrite compose_cons, IH. simpl.
    destruct (Compose.c_method (Compose.composeEntry methodOf e)).
    + left. by eexists.
    + right. by eexists.
  - right. exists msg. by rewrite compose_cons, IH.
Qed.

End ComposeLists.

(** X12.  Composing a list is composing its first part around the chain
    composed from the rest: [compose(l1 ++ l2)] called with [next] is
    [compose(l1)] called with the generator of [compose(l2)] called with
    [next], and throws when that one throws. *)
Theorem compose_splits_over_append {Request Response Instance Value Event : Type}
        (methodOf : Instance -> string
                    -> option (Compose.MiddlewareFn Request Response Instance Value Event))
        (request : Request) (response : Response)
        (l1 l2 : list (Compose.Entry Request Response Instance Value Event))
        (next : option (Compose.Generator Value Event)) :
  Compose.compose methodOf (l1 ++ l2) request response next
  = Js.bind (Compose.compose methodOf l2 request response next)
            (fun chain => Compose.compose methodOf l1 request response (Some chain)).
Proof.
  unfold Compose.compose at 1. rewrite map_app, foldr_app.
  fold (Compose.compose methodOf l2 request response next).
  destruct (Compose.compose methodOf l2 request response next) as [chain|e]; simpl.
  - reflexivity.
  - apply foldr_wrap_throw.
Qed.


(** ** Keys of named middleware *)

Section KeyText.

Lemma join_split (c : ascii) (s : string) :
  JsString.join (String c EmptyString) (Js.split c s) = s.
Proof.
  induction s as [|c' s IH]; [done|]. simpl.
  destruct (split_nonempty c s) as (t & ts & Hts). rewrite Hts in *.
  destruct (Ascii.eqb_spec c' c) as [->|Hne].
  - change (JsString.join (String c "") ("" :: t :: ts))
      with ("" +:+ String c "" +:+ JsString.join (String c "") (t :: ts)).
    by rewrite IH.
  - destruct ts as [|t' ts].
    + simpl in *. by rewrite IH.
    + change (JsString.join (String c "") (String c' t :: t' :: ts))
        with (String c' (t +:+ String c "" +:+ JsString.join (String c "") (t' :: ts))).
      by rewrite <- IH.
Qed.

Lemma split_parts_no_sep (c : ascii) (s : string) :
  Forall (fun part => JsString.contains c part = false) (Js.split c s).
Proof.
  induction s as [|c' s IH]; [by repeat constructor|]. simpl.
  destruct (split_nonempty c s) as (t & ts & Hts). rewrite Hts in *.
  apply Forall_cons in IH as [Ht Hts'].
  destruct (Ascii.eqb c' c) eqn:Hc.
  - by repeat constructor.
  - constructor; [|done]. simpl. by rewrite Hc.
Qed.

Lemma split_no_sep (c : ascii) (s : string) :
  JsString.contains c s = false -> Js.split c s = [s].
Proof.
  induction s as [|c' s IH]; [done|]. simpl.
  intros [Hc Hs]%orb_false_iff. rewrite Hc, IH by done. done.
Qed.

Lemma split_app_sep (c : ascii) (k t : string) :
  JsString.contains c k = false ->
  Js.split c (k +:+ String c t) = k :: Js.split c t.
Proof.
  induction k as [|c' k IH]; intros Hk.
  - change (Js.split c (String c t) = "" :: Js.split c t). simpl.
    by rewrite Ascii.eqb_refl.
  - simpl in Hk. apply orb_false_iff in Hk as [Hc Hk].
    change (Js.split c (String c' (k +:+ String c t)) = String c' k :: Js.split c t).
    simpl. by rewrite Hc, IH.
Qed.

Lemma baseKey_no_colon (key : string) :
  JsString.contains ":" (Middleware.baseKey key) = false.
Proof.
  unfold Middleware.baseKey.
  pose proof (split_parts_no_sep ":" key) as Hparts.
  destruct (Js.split ":" key) as [|t ts]; [done|].
  by apply Forall_cons in Hparts as [Ht _].
Qed.

Lemma storeBuilt_namedTruthy (st : Middleware.Store) :
  storeBuilt st -> Middleware.namedTruthy st.
Proof.
  induction 1.
  - apply new_namedTruthy.
  - by apply register_namedTruthy.
  - by apply global_namedTruthy.
  - by apply named_namedTruthy.
Qed.

Lemma first_absent_key (st : Middleware.Store) (keys : list string) :
  Forall (fun k => is_Some (Middleware.namedMiddleware st !! Middleware.baseKey k)) keys
  \/ exists pre key post,
      keys = pre ++ key :: post
      /\ Forall (fun k => is_Some (Middleware.namedMiddleware st !! Middleware.baseKey k))
                pre
      /\ Middleware.namedMiddleware st !! Middleware.baseKey key = None.
Proof.
  induction keys as [|k keys IH]; [by left|].
  destruct (Middleware.namedMiddleware st !! Middleware.baseKey k) as [ns|] eqn:Hk.
  - destruct IH as [Hall|(pre & key & post & -> & Hpre & Hkey)].
    + left. constructor; [by eexists|done].
    + right. exists (k :: pre), key, post. split_and!; [done| |done].
      constructor; [by eexists|done].
  - right. by exists [], k, keys.
Qed.

End KeyText.

(** X14.  [fetchParams] loses nothing of a non-empty text: it gives at
    least one parameter, no parameter contains a comma, and the parameters
    joined by commas are the text again. *)
Theorem fetchParams_splits_losslessly (text : string) :
  Js.truthy text = true ->
  JsString.join "," (Middleware.fetchParams (Some text)) = text
  /\ Forall (fun p => JsString.contains "," p = false)
            (Middleware.fetchParams (Some text))
  /\ Middleware.fetchParams (Some text) ≠ [].
Proof.
  intros Ht. unfold Middleware.fetchParams. rewrite Ht. split_and!.
  - apply join_split.
  - apply split_parts_no_sep.
  - by destruct (split_nonempty "," text) as (t & ts & ->).
Qed.

Lemma fetchParams_splits_losslessly_witness :
  JsString.join "," (Middleware.fetchParams (Some "basic,,jwt")) = "basic,,jwt".
Proof. apply (fetchParams_splits_losslessly "basic,,jwt"). reflexivity. Defined.


Section FoundKeys.
Context `{NativeSource}.

(** On a table of truthy namespaces, either every key reads a value or
    there is a first key that reads none. *)
Lemma first_unfound_key (st : Middleware.Store) (keys : list string) :
  Middleware.namedTruthy st ->
  Forall (Middleware.found st) keys
  \/ exists pre key post,
      keys = pre ++ key :: post
      /\ Forall (Middleware.found st) pre
      /\ Middleware.namedMiddleware st !! Middleware.baseKey key = None
      /\ Middleware.baseKey key ∉ Js.objectPrototypeKeys.
Proof.
  intros Htruthy. induction keys as [|k keys IH]; [by left|].
  assert (Middleware.found st k
          \/ (Middleware.namedMiddleware st !! Middleware.baseKey k = None
              /\ Middleware.baseKey k ∉ Js.objectPrototypeKeys)) as [Hk|Hk].
  { destruct (Middleware.namedMiddleware st !! Middleware.baseKey k) as [ns|] eqn:Hl.
    - left. left. exists ns. split; [done|]. by apply (Htruthy _ _ Hl).
    - destruct (decide (Middleware.baseKey k ∈ Js.objectPrototypeKeys)).
      + left. by right.
      + by right. }
  - destruct IH as [Hall|(pre & key & post & -> & Hpre & Hkey)].
    + left. by constructor.
    + right. exists (k :: pre), key, post. split_and!; [done|by constructor|tauto|tauto].
  - right. exists [], k, keys. split_and!; [done|done|tauto|tauto].
Qed.

End FoundKeys.

(** X15.  A named middleware can be referred to when its key has no colon
    and is not [__proto__].  After [register(key, namespace)] with such a
    key, and a namespace other than [__proto__], [formatNamedMiddleware]
    finds the namespace for [key] and for [key:text], giving the parameters
    of [text].  A key registered with a colon in it is not found under its
    own name, since only the part before the first colon is looked up; and
    registering under the key [__proto__] changes nothing. *)
Theorem named_key_found_unless_colon `{NativeSource} (st : Middleware.Store)
        (key ns : string) :
  Js.truthy ns = true ->
  (JsString.contains ":" key = false ->
   key ≠ "__proto__" ->
   ns ≠ "__proto__" ->
   Middleware.formatNamedMiddleware (Middleware.register key (Some ns) st) [key]
   = Js.Ok (Middleware.mkStructured {[ ns := [] ]} None)
   /\ forall text,
       JsString.contains ":" text = false ->
       Middleware.formatNamedMiddleware (Middleware.register key (Some ns) st)
                                        [key +:+ ":" +:+ text]
       = Js.Ok (Middleware.mkStructured {[ ns := Middleware.fetchParams (Some text) ]}
                                        None))
  /\ (JsString.contains ":" key = true ->
      Middleware.namedMiddleware st !! Middleware.baseKey key = None ->
      Middleware.baseKey key ∉ Js.objectPrototypeKeys ->
      Middleware.formatNamedMiddleware (Middleware.register key (Some ns) st) [key]
      = Js.Throw (Middleware.missingNamedMiddleware (Middleware.baseKey key)))
  /\ (forall keys,
         Middleware.formatNamedMiddleware (Middleware.register "__proto__" (Some ns) st) keys
         = Middleware.formatNamedMiddleware st keys).
Proof.
  intros Hns. rewrite !register_truthy by done. split_and!.
  - intros Hkey Hk Hnsp. rewrite assign_plain by done.
    assert (forall ps, Middleware.setEntry ns ps (Middleware.mkStructured ∅ None)
                       = Middleware.mkStructured {[ ns := ps ]} None) as Hset.
    { intros ps. unfold Middleware.setEntry. apply String.eqb_neq in Hnsp as ->.
      simpl. by rewrite insert_empty. }
    split.
    + unfold Middleware.formatNamedMiddleware. rewrite reduceKeys_cons.
      rewrite (formatStep_registered _ _ _ ns); [| |done].
      * simpl. unfold Middleware.keyParams. rewrite split_no_sep by done.
        by rewrite Hset.
      * unfold Middleware.baseKey. rewrite split_no_sep by done. simpl.
        apply lookup_insert_eq.
    + intros text Htext.
      change (key +:+ ":" +:+ text) with (key +:+ String ":" text).
      unfold Middleware.formatNamedMiddleware. rewrite reduceKeys_cons.
      rewrite (formatStep_registered _ _ _ ns); [| |done].
      * simpl. unfold Middleware.keyParams.
        rewrite split_app_sep, (split_no_sep ":" text) by done.
        rewrite Hset. by destruct text.
      * unfold Middleware.baseKey. rewrite split_app_sep by done. simpl.
        apply lookup_insert_eq.
  - intros Hkey Habsent Hproto.
    unfold Middleware.formatNamedMiddleware. rewrite reduceKeys_cons.
    rewrite formatStep_unregistered; [done| |done]. simpl.
    rewrite assign_other; [done|].
    intros Heq. pose proof (baseKey_no_colon key) as Hb. rewrite Heq in Hb.
    congruence.
  - intros keys. rewrite assign_proto. by destruct st.
Qed.

Lemma named_key_found_unless_colon_witness :
  Middleware.formatNamedMiddleware (H := Examples.v8Source)
    (Middleware.register "auth" (Some "App/Auth") Middleware.new) ["auth:basic,jwt"]
  = Js.Ok (Middleware.mkStructured
             {[ "App/Auth" := Middleware.fetchParams (Some "basic,jwt") ]} None)
  /\ Middleware.formatNamedMiddleware (H := Examples.v8Source)
       (Middleware.register "auth:api" (Some "App/Auth") Middleware.new) ["auth:api"]
     = Js.Throw (Middleware.missingNamedMiddleware (Middleware.baseKey "auth:api")).
Proof.
  split.
  - apply (proj2 (proj1 (named_key_found_unless_colon (H := Examples.v8Source)
                           Middleware.new "auth" "App/Auth" eq_refl)
                        eq_refl ltac:(discriminate) ltac:(discriminate))
                 "basic,jwt" eq_refl).
  - apply (proj1 (proj2 (named_key_found_unless_colon (H := Examples.v8Source)
                           Middleware.new "auth:api" "App/Auth" eq_refl))
                 eq_refl eq_refl).
    compute_done.
Defined.

(** X16.  On every store built from [new] by [register], [global] and
    [named], [formatNamedMiddleware] returns an object exactly when the
    base key of every key has an entry in the named table or is the name of
    a property that the table inherits; otherwise it throws
    E_MISSING_NAMED_MIDDLEWARE for the first base key that is neither. *)
Theorem format_throws_only_for_absent_keys `{NativeSource} (st : Middleware.Store)
        (keys : list string) :
  storeBuilt st ->
  (Forall (fun k => is_Some (Middleware.namedMiddleware st !! Middleware.baseKey k)
                    \/ Middleware.baseKey k ∈ Js.objectPrototypeKeys) keys
   <-> exists structured, Middleware.formatNamedMiddleware st keys = Js.Ok structured)
  /\ (forall pre key post,
         keys = pre ++ key :: post ->
         Forall (fun k => is_Some (Middleware.namedMiddleware st !! Middleware.baseKey k)
                          \/ Middleware.baseKey k ∈ Js.objectPrototypeKeys) pre ->
         Middleware.namedMiddleware st !! Middleware.baseKey key = None ->
         Middleware.baseKey key ∉ Js.objectPrototypeKeys ->
         Middleware.formatNamedMiddleware st keys
         = Js.Throw (Js.RuntimeException
                       (Middleware.baseKey key +:+ " is not registered as a named middleware")
                       500 "E_MISSING_NAMED_MIDDLEWARE")).
Proof.
  intros Hbuilt. pose proof (storeBuilt_namedTruthy st Hbuilt) as Htruthy.
  assert (forall k,
             Middleware.found st k
             <-> is_Some (Middleware.namedMiddleware st !! Middleware.baseKey k)
                 \/ Middleware.baseKey k ∈ Js.objectPrototypeKeys) as Hfound.
  { intros k. split.
    - intros [(ns & Hl & _)|[_ Hin]]; [left; by eexists|by right].
    - intros [[ns Hl]|Hin].
      + left. exists ns. split; [done|]. by apply (Htruthy _ _ Hl).
      + destruct (Middleware.namedMiddleware st !! Middleware.baseKey k) as [ns|] eqn:Hl.
        * left. exists ns. split; [done|]. by apply (Htruthy _ _ Hl).
        * by right. }
  assert (forall l,
             Forall (fun k => is_Some (Middleware.namedMiddleware st
                                         !! Middleware.baseKey k)
                              \/ Middleware.baseKey k ∈ Js.objectPrototypeKeys) l
             <-> Forall (Middleware.found st) l) as Hall.
  { intros l. apply Forall_proper; [|done]. intros k. by rewrite Hfound. }
  split.
  - rewrite Hall. split.
    + apply reduceKeys_found.
    + intros (structured & Hok).
      destruct (first_unfound_key st keys Htruthy)
        as [Hf|(pre & key & post & -> & Hpre & Hkey & Hin)]; [done|].
      unfold Middleware.formatNamedMiddleware in Hok.
      rewrite reduceKeys_throws in Hok by done. discriminate Hok.
  - intros pre key post -> Hpre Hkey Hin. apply reduceKeys_throws; [|done|done].
    by apply Hall.
Qed.

Lemma format_throws_only_for_absent_keys_witness :
  Middleware.formatNamedMiddleware (H := Examples.v8Source)
    (Middleware.named [("auth", Some "App/Auth"); ("log", None)] Middleware.new)
    ["auth:basic"; "valueOf"; "log"]
  = Js.Throw (Js.RuntimeException "log is not registered as a named middleware"
                                  500 "E_MISSING_NAMED_MIDDLEWARE").
Proof.
  apply (proj2 (format_throws_only_for_absent_keys (H := Examples.v8Source)
                  (Middleware.named [("auth", Some "App/Auth"); ("log", None)]
                                    Middleware.new)
                  ["auth:basic"; "valueOf"; "log"]
                  (built_named _ _ built_new))
               ["auth:basic"; "valueOf"] "log" []).
  - reflexivity.
  - constructor; [left; by eexists|]. constructor; [right; compute_done|constructor].
  - reflexivity.
  - compute_done.
Defined.

(** ** Members of a resource *)

(** X17.  [addMember] and [addCollection], called without a callback,
    throw the configuration error E_INVALID_PARAMETER for an empty route
    and build nothing.  Otherwise, on a resource as it is generated, each
    builds one record in the resource, for [{base}/:id/{route}] and
    [{base}/{route}], bound to [controller.route], named by its path, with
    the verbs given, or [GET] and [HEAD] when none is given, and pushes its
    reference twice on the resource's own array. *)
Theorem addMember_addCollection_build_one `{PathToRegexp} (path : string)
        (verbs : ResourceRoutes.VerbsArg) (base controller : string)
        (res : Resource.Resource) :
  Resource.new base (HString controller) = Js.Ok res ->
  (Js.truthy path = false ->
   ResourceRoutes.addMember path verbs res
   = Js.Throw (Js.InvalidArgumentException "Resource.addMember expects a route"
                                           500 "E_INVALID_PARAMETER")
   /\ ResourceRoutes.addCollection path verbs res
      = Js.Throw (Js.InvalidArgumentException "Resource.addCollection expects a route"
                                              500 "E_INVALID_PARAMETER"))
  /\ (Js.truthy path = true ->
      let built := fun template =>
        let template := if Js.startsWith "/" template then template
                        else "/" +:+ template in
        mkRoute template
                (match verbs with
                 | ResourceRoutes.NoVerbs => ["GET"; "HEAD"]
                 | ResourceRoutes.OneVerb v => if Js.truthy v then [v] else ["GET"; "HEAD"]
                 | ResourceRoutes.Verbs l => l
                 end)
                (HString (controller +:+ "." +:+ path))
                (pathToRegexp template) [] template None None None None in
      ResourceRoutes.addMember path verbs res
      = Js.Ok (Resource.mkResource
                 (Resource.r_pattern res) (Resource.r_handler res)
                 (Resource.records res
                  ++ [built (Resource._makePattern base +:+ "/:id/" +:+ path)])
                 (Resource.r_routes res ++ [7; 7])
                 (Resource.basename res))
      /\ ResourceRoutes.addCollection path verbs res
         = Js.Ok (Resource.mkResource
                    (Resource.r_pattern res) (Resource.r_handler res)
                    (Resource.records res
                     ++ [built (Resource._makePattern base +:+ "/" +:+ path)])
                    (Resource.r_routes res ++ [7; 7])
                    (Resource.basename res))).
Proof.
  intros [Hne ->]%new_inv. split.
  - intros Hp. unfold ResourceRoutes.addMember, ResourceRoutes.addCollection.
    by rewrite Hp.
  - intros Hp built. subst built.
    set (res := Resource.mkResource _ _ _ _ _).
    assert (Forall (Resource.pathNamed res) (Resource.records res)) as Hnamed
        by by apply actionRecords_pathNamed.
    unfold ResourceRoutes.addMember, ResourceRoutes.addCollection.
    rewrite Hp. simpl negb. cbv iota.
    rewrite !registerRoute_spec; try done.
    + intros item. apply (path_not_dotted base ("/" +:+ path) item). by right.
    + intros item. apply (path_not_dotted base ("/:id/" +:+ path) item). by right.
Qed.

Lemma addMember_addCollection_build_one_witness :
  ResourceRoutes.addMember "" ResourceRoutes.NoVerbs
    (Resource._buildRoutes (Resource.mkResource "post" "PostController" [] [] "post"))
  = Js.Throw (Js.InvalidArgumentException "Resource.addMember expects a route"
                                          500 "E_INVALID_PARAMETER")
  /\ Js.bind (ResourceRoutes.addMember "completed" (ResourceRoutes.OneVerb "PUT")
                (Resource._buildRoutes
                   (Resource.mkResource "post" "PostController" [] [] "post")))
             (fun res => Js.Ok (map (fun r => (name r, route r, verb r, handler r))
                                    (drop 7 (Resource.records res)),
                                drop 14 (Resource.r_routes res)))
     = Js.Ok ([("/post/:id/completed", "/post/:id/completed", ["PUT"],
                HString "PostController.completed")], [7; 7]).
Proof.
  split.
  - apply (proj1 (addMember_addCollection_build_one "" ResourceRoutes.NoVerbs
                    "post" "PostController" _ eq_refl)).
    reflexivity.
  - rewrite (proj1 (proj2 (addMember_addCollection_build_one "completed"
                             (ResourceRoutes.OneVerb "PUT") "post" "PostController"
                             _ eq_refl) eq_refl)).
    reflexivity.
Defined.
